(** * Pixel painter: a shallow embedding of [pixel_painter.py]

    The development follows the Python source function by function:
    the configuration reader [get_coords], the colour model
    ([calculate_luminance], [calculate_color_distance]), the tile geometry
    ([get_tile_position]) and the worker [painting_loop] together with the
    controller entry points [toggle_pause], [abort_painting] and
    [finish_painting].

    Numbers are modelled as Python has them: [int] is [Z]; the [float]s of
    the colour model are binary64 values ([PrimFloat.float]) computed with
    the same operations in the same order as the source; the tile geometry,
    whose operands are dyadic rationals, is computed in [Q].  Text is
    restricted to ASCII. *)

From Stdlib Require Import ZArith List String Ascii Bool Lia.
From Stdlib Require Import QArith Qround.
From Stdlib Require Import Floats.
From Stdlib Require Import Permutation Sorted.
Import ListNotations.

Set Warnings "-inexact-float".
Local Open Scope string_scope.
Local Open Scope Z_scope.

(* ================================================================== *)
(** * Python primitives *)
(* ================================================================== *)

Module Py.

  (** ** Text *)

  (** [str.isspace] on ASCII: tab, newline, vertical tab, form feed,
      carriage return, the four separators 0x1c-0x1f and the space. *)
Definition is_space (c : ascii) : bool :=
    let n := nat_of_ascii c in
    ((9 <=? n)%nat && (n <=? 13)%nat) || ((28 <=? n)%nat && (n <=? 32)%nat).

Fixpoint lstrip (s : list ascii) : list ascii :=
    match s with
    | c :: s' => if is_space c then lstrip s' else s
    | [] => []
    end.

  (** [str.strip()] *)
Definition strip (s : list ascii) : list ascii :=
    rev (lstrip (rev (lstrip s))).

  (** Value of a character as a digit in bases up to 36. *)
Definition digit_val (c : ascii) : option Z :=
    let n := Z.of_nat (nat_of_ascii c) in
    if (48 <=? n) && (n <=? 57) then Some (n - 48)
    else if (97 <=? n) && (n <=? 122) then Some (n - 87)
    else if (65 <=? n) && (n <=? 90) then Some (n - 55)
    else None.

  (** The digit part of an integer literal: digits of the base, single
      underscores allowed between two digits only. *)
Fixpoint parse_digits (base acc : Z) (after_digit : bool) (s : list ascii)
    : option Z :=
    match s with
    | [] => if after_digit then Some acc else None
    | c :: s' =>
        if Ascii.eqb c "_"
        then if after_digit then parse_digits base acc false s' else None
        else match digit_val c with
             | Some d => if d <? base
                         then parse_digits base (acc * base + d) true s'
                         else None
             | None => None
             end
    end.

  (** [int(s, base)] for an explicit [base]; [None] stands for the
      [ValueError] Python raises.  Base prefixes ([0x]) are not modelled:
      the source calls base 16 on slices of at most two characters, where
      a prefix can never be followed by a digit, and base 10 admits
      none. *)
Definition int_of_string (base : Z) (s : string) : option Z :=
    match strip (list_ascii_of_string s) with
    | c :: r =>
        if Ascii.eqb c "-" then option_map Z.opp (parse_digits base 0 false r)
        else if Ascii.eqb c "+" then parse_digits base 0 false r
        else parse_digits base 0 false (c :: r)
    | [] => None
    end.

  (** [s[i:j]] for [0 <= i <= j]: slices never fail, they come out short. *)
Definition slice (i j : nat) (s : string) : string := substring i (j - i) s.

Definition lower_ascii (c : ascii) : ascii :=
    let n := nat_of_ascii c in
    if ((65 <=? n)%nat && (n <=? 90)%nat)%bool then ascii_of_nat (n + 32) else c.

  (** [str.lower()] *)
Fixpoint lower (s : string) : string :=
    match s with
    | EmptyString => EmptyString
    | String c s' => String (lower_ascii c) (lower s')
    end.

  (** ** Numbers *)

  (** [float(n)] for an [int] [n]: the nearest binary64 value, ties to
      even.  (Python raises [OverflowError] beyond the binary64 range, where
      this gives an infinity.) *)
Definition float_of_int (z : Z) : float :=
    SF2Prim (binary_normalize prec emax z 0 false).

  (** [n / 32] for an [int] [n] (true division by a power of two). *)
Definition int_div_pow2 (z : Z) (k : Z) : float :=
    SF2Prim (binary_normalize prec emax z (- k) false).

  (** Comparison of a [float] with an [int].  Python compares the two
      exactly, without rounding the integer: a finite float is
      [m * 2^e]. *)
Definition float_cmp_int (d : float) (t : Z) : option comparison :=
    match Prim2SF d with
    | S754_nan => None
    | S754_infinity s => Some (if s then Lt else Gt)
    | S754_zero _ => Some (0 ?= t)
    | S754_finite s m e =>
        let v := if s then Zneg m else Zpos m in
        Some (if 0 <=? e then (v * 2 ^ e ?= t) else (v ?= t * 2 ^ (- e)))
    end.

  (** [d <= t] *)
Definition float_le_int (d : float) (t : Z) : bool :=
    match float_cmp_int d t with
    | Some (Lt | Eq) => true
    | _ => false
    end.

  (** [d > t] *)
Definition float_gt_int (d : float) (t : Z) : bool :=
    match float_cmp_int d t with
    | Some Gt => true
    | _ => false
    end.

  (** [d == t] *)
Definition float_eq_int (d : float) (t : Z) : bool :=
    match float_cmp_int d t with
    | Some Eq => true
    | _ => false
    end.

  (** [int(v)] for a float [v] given by its exact value: truncation
      towards zero. *)
Definition trunc (q : Q) : Z := Z.quot (Qnum q) (Zpos (Qden q)).

  (** ** [float(s)]

      The value read from a decimal literal is kept exact (a rational):
      only its sign and its comparison with zero are ever used by the
      program, and rounding to binary64 preserves both.  Overflow of huge
      literals to an infinity is not modelled. *)
Inductive pyfloat : Type :=
  | PF_finite (q : Q)
  | PF_inf (negative : bool)
  | PF_nan.

  (** Splits at the first character satisfying [p]. *)
Fixpoint split_at (p : ascii -> bool) (s : list ascii)
    : list ascii * option (list ascii) :=
    match s with
    | [] => ([], None)
    | c :: s' =>
        if p c then ([], Some s')
        else let '(l, r) := split_at p s' in (c :: l, r)
    end.

  (** A run of decimal digits with inner underscores: its value and its
      number of digits. *)
Definition digit_part (s : list ascii) : option (Z * Z) :=
    match parse_digits 10 0 false s with
    | Some v =>
        Some (v, Z.of_nat (List.length
                             (filter (fun c => negb (Ascii.eqb c "_")) s)))
    | None => None
    end.

Definition signed_digits (s : list ascii) : option Z :=
    match s with
    | c :: r =>
        if Ascii.eqb c "-" then option_map Z.opp (parse_digits 10 0 false r)
        else if Ascii.eqb c "+" then parse_digits 10 0 false r
        else parse_digits 10 0 false s
    | [] => None
    end.

Definition pow10 (e : Z) : Q :=
    if 0 <=? e then inject_Z (10 ^ e) else (1 / inject_Z (10 ^ (- e)))%Q.

  (** Mantissa [int.frac] and optional exponent of a decimal literal. *)
Definition decimal_value (s : list ascii) : option Q :=
    let '(mant, expo) :=
      split_at (fun c => Ascii.eqb c "e" || Ascii.eqb c "E") s in
    let '(ip, fp) := split_at (fun c => Ascii.eqb c ".") mant in
    let m :=
      match ip, fp with
      | [], None | [], Some [] => None
      | _ :: _, None | _ :: _, Some [] =>
          option_map (fun '(v, _) => (v, 0)) (digit_part ip)
      | [], Some ((_ :: _) as f) => digit_part f
      | _ :: _, Some ((_ :: _) as f) =>
          match digit_part ip, digit_part f with
          | Some (vi, _), Some (vf, n) => Some (vi * 10 ^ n + vf, n)
          | _, _ => None
          end
      end in
    let e :=
      match expo with
      | None => Some 0
      | Some r => signed_digits r
      end in
    match m, e with
    | Some (v, n), Some k => Some (inject_Z v * pow10 (k - n))%Q
    | _, _ => None
    end.

Definition float_of_string (s : string) : option pyfloat :=
    let body (neg : bool) (r : list ascii) : option pyfloat :=
      let w := string_of_list_ascii (map lower_ascii r) in
      if (String.eqb w "inf" || String.eqb w "infinity")%bool
      then Some (PF_inf neg)
      else if String.eqb w "nan" then Some PF_nan
      else option_map (fun q => PF_finite (if neg then - q else q)%Q)
                      (decimal_value r) in
    match strip (list_ascii_of_string s) with
    | c :: r =>
        if Ascii.eqb c "-" then body true r
        else if Ascii.eqb c "+" then body false r
        else body false (c :: r)
    | [] => None
    end.

Definition pf_scale (k : Q) (d : pyfloat) : pyfloat :=
    match d with
    | PF_finite q => PF_finite (q * k)%Q
    | other => other
    end.

  (** [time.sleep(d)] accepts a finite non-negative length and raises on
      a negative, NaN or infinite one. *)
Definition sleep_ok (d : pyfloat) : bool :=
    match d with
    | PF_finite q => Qle_bool 0 q
    | _ => false
    end.

End Py.

(* ================================================================== *)
(** * Colour model *)
(* ================================================================== *)

(** A colour travels through the program as a string of hexadecimal
    digits, [f"{r:02x}{g:02x}{b:02x}"] in [upload_image]. *)
Definition Color := string.

(** The three [int(hex_color[i:i+2], 16)] of both colour functions. *)
Definition parse_rgb (hex_color : Color) : option (Z * Z * Z) :=
  match Py.int_of_string 16 (Py.slice 0 2 hex_color),
        Py.int_of_string 16 (Py.slice 2 4 hex_color),
        Py.int_of_string 16 (Py.slice 4 6 hex_color) with
  | Some r, Some g, Some b => Some (r, g, b)
  | _, _, _ => None
  end.

(** [0.299 * r + 0.587 * g + 0.114 * b], evaluated left to right in
    binary64. *)
Definition luminance_rgb (r g b : Z) : float :=
  (0.299 * Py.float_of_int r + 0.587 * Py.float_of_int g
   + 0.114 * Py.float_of_int b)%float.

Definition calculate_luminance (hex_color : Color) : option float :=
  match parse_rgb hex_color with
  | Some (r, g, b) => Some (luminance_rgb r g b)
  | None => None
  end.

(** The integer under the square root:
    [(r2 - r1) ** 2 + (g2 - g1) ** 2 + (b2 - b1) ** 2]. *)
Definition sq_distance (c1 c2 : Z * Z * Z) : Z :=
  let '(r1, g1, b1) := c1 in
  let '(r2, g2, b2) := c2 in
  (r2 - r1) ^ 2 + (g2 - g1) ^ 2 + (b2 - b1) ^ 2.

(** [math.sqrt] of an [int]: conversion to binary64, then the correctly
    rounded square root. *)
Definition math_sqrt (n : Z) : float := PrimFloat.sqrt (Py.float_of_int n).

Definition calculate_color_distance (hex_color1 hex_color2 : Color)
  : option float :=
  match parse_rgb hex_color1, parse_rgb hex_color2 with
  | Some c1, Some c2 => Some (math_sqrt (sq_distance c1 c2))
  | _, _ => None
  end.

(** The colours [upload_image] produces: exactly six hexadecimal digits. *)
Definition is_hexdigit (c : ascii) : bool :=
  match Py.digit_val c with
  | Some d => d <? 16
  | None => false
  end.

Definition is_hex6 (s : Color) : bool :=
  (Nat.eqb (String.length s) 6) && forallb is_hexdigit (list_ascii_of_string s).

(* ================================================================== *)
(** * Configuration *)
(* ================================================================== *)

(** The text of the eleven entry widgets read by [get_coords]. *)
Record Form : Type := {
  f_start_x : string; f_start_y : string;
  f_end_x : string; f_end_y : string;
  f_button_x : string; f_button_y : string;
  f_hex_x : string; f_hex_y : string;
  f_mouse_speed : string;
  f_action_delay : string;
  f_color_tolerance : string
}.

(** The dictionary [get_coords] returns. *)
Record Coords : Type := {
  start_x : Z; start_y : Z;
  end_x : Z; end_y : Z;
  button_x : Z; button_y : Z;
  hex_x : Z; hex_y : Z;
  speed : Z;
  delay : Py.pyfloat;
  tolerance : Z
}.

Definition int10 : string -> option Z := Py.int_of_string 10.

(** [get_coords]: every field goes through [int(...)], the delay through
    [float(...)]; any [ValueError] yields [None] (after the error box).
    No value is compared with any bound. *)
Definition get_coords (f : Form) : option Coords :=
  match int10 (f_start_x f), int10 (f_start_y f),
        int10 (f_end_x f), int10 (f_end_y f),
        int10 (f_button_x f), int10 (f_button_y f),
        int10 (f_hex_x f), int10 (f_hex_y f),
        int10 (f_mouse_speed f),
        Py.float_of_string (f_action_delay f),
        int10 (f_color_tolerance f) with
  | Some sx, Some sy, Some ex, Some ey, Some bx, Some by_, Some hx, Some hy,
    Some sp, Some d, Some tol =>
      Some {| start_x := sx; start_y := sy; end_x := ex; end_y := ey;
              button_x := bx; button_y := by_; hex_x := hx; hex_y := hy;
              speed := sp; delay := d; tolerance := tol |}
  | _, _, _, _, _, _, _, _, _, _, _ => None
  end.

(** The ranges the specification gives for a valid configuration. *)
Definition in_spec_ranges (c : Coords) : bool :=
  (1 <=? speed c) && (speed c <=? 100)
  && Py.sleep_ok (delay c) && (0 <=? tolerance c).

(* ================================================================== *)
(** * Tile geometry *)
(* ================================================================== *)

(** [get_tile_position].  [tile_width] is [grid_width / 32]; with
    coordinates below [2^46] in magnitude every intermediate value is a
    dyadic rational that binary64 represents exactly, so the float
    arithmetic of the source is the rational arithmetic below. *)
Definition get_tile_position (x y : Z) (coords : Coords)
  (tile_width tile_height : Q) : Z * Z :=
  let tile_x :=
    Py.trunc (inject_Z (start_x coords) + inject_Z x * tile_width
              + tile_width / 2)%Q in
  let tile_y :=
    Py.trunc (inject_Z (start_y coords) + inject_Z y * tile_height
              + tile_height / 2)%Q in
  (tile_x, tile_y).

(** The same computation in binary64, operation by operation. *)
Definition get_tile_position_f64 (x y : Z) (coords : Coords)
  (tile_width tile_height : float) : float * float :=
  ((Py.float_of_int (start_x coords) + Py.float_of_int x * tile_width
    + tile_width / 2)%float,
   (Py.float_of_int (start_y coords) + Py.float_of_int y * tile_height
    + tile_height / 2)%float).

(** Lines 492-495 of [painting_loop]. *)
Definition tile_size (coords : Coords) : Q * Q :=
  let grid_width := end_x coords - start_x coords in
  let grid_height := end_y coords - start_y coords in
  ((inject_Z grid_width / 32)%Q, (inject_Z grid_height / 32)%Q).

(** Tile geometry as the specification reads: cell and configuration in,
    screen point out. *)
Definition tilePosition (x y : Z) (coords : Coords) : Z * Z :=
  let '(tile_width, tile_height) := tile_size coords in
  get_tile_position x y coords tile_width tile_height.

(* ================================================================== *)
(** * Application state and the external collaborators *)
(* ================================================================== *)

(** Exceptions (all instances of Python's [Exception]). *)
Inductive Exn : Type :=
| ValueError
| IndexError
| InputError (msg : string).   (* raised by the input-injection library *)

(** Lines of the status log, one constructor per [log_status] call site
    of the painting code. *)
Inductive LogMsg : Type :=
| LogCountdown (i : Z)
| LogStarting
| LogTileSize (tile_width tile_height : Q)
| LogSorted (n : nat)
| LogAborted
| LogPixelColor (pixel_number total : nat) (c : Color) (lum : float)
| LogSameColor (pixel_number total : nat)
| LogComplete
| LogPainted (painted : Z)
| LogChanges (color_changes skipped : Z)
| LogError (e : Exn)
| LogPaused
| LogResumed.

(** Widget updates, immediate or queued with [root.after(0, ...)]. *)
Inductive UiCall : Type :=
| StartBtn (enabled : bool)
| PauseBtn (enabled : bool)
| PauseBtnText (resume : bool)
| AbortBtn (enabled : bool)
| Progress (done total : nat).

Inductive Dialog : Type :=
| ShowWarning (msg : string)
| ShowError (msg : string).

(** Calls into the input-injection layer, at the granularity of the
    helpers of the source: [reliable_click(x, y, speed)] (whose pointer
    motion uses the clamped speed of [human_like_move]) and
    [autoit.send]. *)
Inductive Input : Type :=
| ReliableClick (x y : Z) (move_speed : Z)
| Send (keys : string).

(** [max(1, min(100, 101 - speed))] in [human_like_move]. *)
Definition autoit_speed (speed : Z) : Z := Z.max 1 (Z.min 100 (101 - speed)).

(** What the loop does for a cell, in the vocabulary of the
    specification: the colour-picker round trip of lines 551-579 and the
    tile click of lines 583-590. *)
Inductive PaintAction : Type :=
| SelectColor (c : Color)
| PlaceTile (x y : Z) (screen_x screen_y : Z).

Definition Grid := list (list Color).

Record App : Type := {
  pixel_colors : Grid;
  is_painting : bool;
  is_paused : bool;
  should_abort : bool;
  status_text : list LogMsg;     (* oldest first *)
  ui_calls : list UiCall;        (* oldest first *)
  dialogs : list Dialog;
  inputs : list Input;           (* calls made to the input layer *)
  actions : list PaintAction     (* completed paint actions *)
}.

Definition set_flags (painting paused abort : bool) (a : App) : App :=
  {| pixel_colors := pixel_colors a; is_painting := painting;
     is_paused := paused; should_abort := abort;
     status_text := status_text a; ui_calls := ui_calls a;
     dialogs := dialogs a; inputs := inputs a; actions := actions a |}.

Definition add_log (m : LogMsg) (a : App) : App :=
  {| pixel_colors := pixel_colors a; is_painting := is_painting a;
     is_paused := is_paused a; should_abort := should_abort a;
     status_text := status_text a ++ [m]; ui_calls := ui_calls a;
     dialogs := dialogs a; inputs := inputs a; actions := actions a |}.

Definition add_ui (cs : list UiCall) (a : App) : App :=
  {| pixel_colors := pixel_colors a; is_painting := is_painting a;
     is_paused := is_paused a; should_abort := should_abort a;
     status_text := status_text a; ui_calls := ui_calls a ++ cs;
     dialogs := dialogs a; inputs := inputs a; actions := actions a |}.

Definition add_dialog (d : Dialog) (a : App) : App :=
  {| pixel_colors := pixel_colors a; is_painting := is_painting a;
     is_paused := is_paused a; should_abort := should_abort a;
     status_text := status_text a; ui_calls := ui_calls a;
     dialogs := dialogs a ++ [d]; inputs := inputs a; actions := actions a |}.

Definition add_input (i : Input) (a : App) : App :=
  {| pixel_colors := pixel_colors a; is_painting := is_painting a;
     is_paused := is_paused a; should_abort := should_abort a;
     status_text := status_text a; ui_calls := ui_calls a;
     dialogs := dialogs a; inputs := inputs a ++ [i]; actions := actions a |}.

Definition add_action (p : PaintAction) (a : App) : App :=
  {| pixel_colors := pixel_colors a; is_painting := is_painting a;
     is_paused := is_paused a; should_abort := should_abort a;
     status_text := status_text a; ui_calls := ui_calls a;
     dialogs := dialogs a; inputs := inputs a; actions := actions a ++ [p] |}.

(** ** Controller entry points (main thread) *)

Definition toggle_pause (a : App) : App :=
  let a1 := set_flags (is_painting a) (negb (is_paused a)) (should_abort a) a in
  if is_paused a1
  then add_log LogPaused (add_ui [PauseBtnText true] a1)
  else add_log LogResumed (add_ui [PauseBtnText false] a1).

Definition abort_painting (a : App) : App :=
  set_flags (is_painting a) false true a.

(** The F1 hot key. *)
Definition on_ctrl_press (a : App) : App :=
  if is_painting a then toggle_pause a else a.

Definition finish_painting (a : App) : App :=
  add_ui [StartBtn true; PauseBtn false; PauseBtnText false; AbortBtn false]
         (set_flags false (is_paused a) (should_abort a) a).

(** [start_painting]: the second component is the argument of the worker
    thread when one is started. *)
Definition start_painting (f : Form) (a : App) : App * option Coords :=
  match pixel_colors a with
  | [] => (add_dialog (ShowWarning "Please upload an image first") a, None)
  | _ :: _ =>
      match get_coords f with
      | None =>
          (add_dialog (ShowError "All coordinate values must be numbers") a,
           None)
      | Some coords =>
          (add_ui [StartBtn false; PauseBtn true; AbortBtn true]
                  (set_flags true false false a),
           Some coords)
      end
  end.

(** What the controller may do while the worker runs. *)
Inductive Cmd : Type :=
| PressPause       (* the pause button: [toggle_pause] *)
| PressAbort       (* the abort button: [abort_painting] *)
| PressF1.         (* the hot key: [on_ctrl_press] *)

Definition deliver1 (a : App) (c : Cmd) : App :=
  match c with
  | PressPause => toggle_pause a
  | PressAbort => abort_painting a
  | PressF1 => on_ctrl_press a
  end.

Definition deliver (cs : list Cmd) (a : App) : App := fold_left deliver1 cs a.

(** ** The world of the worker thread

    Besides the application object the worker sees, through it, what the
    rest of the world does: [ctl] holds the controller commands that
    arrive before each successive reading of the two flags, [faults] the
    outcome of each successive call of the input layer, [jitters] the
    successive pairs drawn by [random.uniform(-1, 1)].  An exhausted
    script means: nothing more happens. *)
Record World : Type := {
  self : App;
  ctl : list (list Cmd);
  faults : list (option Exn);
  jitters : list (Q * Q)
}.

Definition with_app (a : App) (w : World) : World :=
  {| self := a; ctl := ctl w; faults := faults w; jitters := jitters w |}.

(** How a block of statements ends. *)
Inductive Ctl (A : Type) : Type :=
| Normal (v : A)       (* falls through *)
| Returned             (* executed [return] *)
| Raised (e : Exn)     (* an exception is propagating *)
| Hung.                (* never ends: paused and never resumed *)
Arguments Normal {A} v.
Arguments Returned {A}.
Arguments Raised {A} e.
Arguments Hung {A}.

Definition M (A : Type) : Type := World -> Ctl A * World.

Definition ret {A} (v : A) : M A := fun w => (Normal v, w).

Definition bind {A B} (m : M A) (k : A -> M B) : M B :=
  fun w =>
    match m w with
    | (Normal v, w') => k v w'
    | (Returned, w') => (Returned, w')
    | (Raised e, w') => (Raised e, w')
    | (Hung, w') => (Hung, w')
    end.

Notation "x <- m ;; k" := (bind m (fun x => k))
  (at level 61, m at next level, right associativity).
Notation "m ;;; k" := (bind m (fun _ => k))
  (at level 61, right associativity).

Definition raise {A} (e : Exn) : M A := fun w => (Raised e, w).
Definition return_ {A} : M A := fun w => (Returned, w).
Definition upd (f : App -> App) : M unit :=
  fun w => (Normal tt, with_app (f (self w)) w).
Definition get {A} (f : App -> A) : M A := fun w => (Normal (f (self w)), w).

(** [try: body except Exception as e: handler(e)] *)
Definition try_except {A} (body : M A) (handler : Exn -> M A) : M A :=
  fun w =>
    match body w with
    | (Raised e, w') => handler e w'
    | r => r
    end.

(** [try: body finally: final]: [final] runs however [body] ends, and an
    exception of its own replaces the pending outcome. *)
Definition try_finally {A} (body : M A) (final : M unit) : M A :=
  fun w =>
    match body w with
    | (Hung, w') => (Hung, w')
    | (r, w') =>
        match final w' with
        | (Normal _, w'') => (r, w'')
        | (Returned, w'') => (Returned, w'')
        | (Raised e, w'') => (Raised e, w'')
        | (Hung, w'') => (Hung, w'')
        end
    end.

Definition log_status (m : LogMsg) : M unit := upd (add_log m).

(** The flags are read: whatever the controller did in the meantime has
    happened. *)
Definition observe : M unit :=
  fun w =>
    match ctl w with
    | [] => (Normal tt, w)
    | cs :: rest =>
        (Normal tt,
         {| self := deliver cs (self w); ctl := rest;
            faults := faults w; jitters := jitters w |})
    end.

(** A call into the input layer: it is recorded, unless the layer fails. *)
Definition input (i : Input) : M unit :=
  fun w =>
    match faults w with
    | Some e :: rest =>
        (Raised e, {| self := self w; ctl := ctl w;
                      faults := rest; jitters := jitters w |})
    | None :: rest =>
        (Normal tt, {| self := add_input i (self w); ctl := ctl w;
                       faults := rest; jitters := jitters w |})
    | [] => (Normal tt, with_app (add_input i (self w)) w)
    end.

Definition reliable_click (x y : Z) (speed : Z) : M unit :=
  input (ReliableClick x y (autoit_speed speed)).

Definition sleep (d : Py.pyfloat) : M unit :=
  if Py.sleep_ok d then ret tt else raise ValueError.

(** [random.uniform(-1, 1)], twice. *)
Definition draw_jitter : M (Q * Q) :=
  fun w =>
    match jitters w with
    | j :: rest => (Normal j, {| self := self w; ctl := ctl w;
                                 faults := faults w; jitters := rest |})
    | [] => (Normal (0, 0)%Q, w)
    end.

(* ================================================================== *)
(** * The painting loop *)
(* ================================================================== *)

(** The tuples [(luminance, hex_color, x, y, tile_x, tile_y)]. *)
Record Pixel : Type := {
  luminance : float;
  hex_color : Color;
  px : Z; py : Z;
  tile_x : Z; tile_y : Z
}.

(** ** Lines 499-506: collecting the pixels *)

(** The index pairs of the two nested [range(32)] loops, [y] outermost. *)
Definition cells : list (nat * nat) :=
  flat_map (fun y => map (fun x => (x, y)) (seq 0 32)) (seq 0 32).

Definition make_pixel (grid : Grid) (coords : Coords) (tile_width tile_height : Q)
  (xy : nat * nat) : Exn + Pixel :=
  let '(x, y) := xy in
  match nth_error grid y with
  | None => inl IndexError
  | Some row =>
      match nth_error row x with
      | None => inl IndexError
      | Some c =>
          let hex_color := Py.lower c in
          match calculate_luminance hex_color with
          | None => inl ValueError
          | Some lum =>
              let '(tx, ty) :=
                get_tile_position (Z.of_nat x) (Z.of_nat y) coords
                                  tile_width tile_height in
              inr {| luminance := lum; hex_color := hex_color;
                     px := Z.of_nat x; py := Z.of_nat y;
                     tile_x := tx; tile_y := ty |}
          end
      end
  end.

Fixpoint collect (f : nat * nat -> Exn + Pixel) (l : list (nat * nat))
  : Exn + list Pixel :=
  match l with
  | [] => inr []
  | xy :: l' =>
      match f xy with
      | inl e => inl e
      | inr p =>
          match collect f l' with
          | inl e => inl e
          | inr ps => inr (p :: ps)
          end
      end
  end.

Definition collect_pixels (grid : Grid) (coords : Coords)
  (tile_width tile_height : Q) : Exn + list Pixel :=
  collect (make_pixel grid coords tile_width tile_height) cells.

(** ** Line 509: [pixels.sort(key=lambda p: p[0])]

    [list.sort] is stable and compares keys with [<] only.  A stable
    insertion sort stands for it: an element moves left past exactly the
    elements whose key is strictly greater. *)
Section StableSort.
Context {A : Type} (lt : A -> A -> bool).

Fixpoint insert_sorted (a : A) (l : list A) : list A :=
    match l with
    | [] => [a]
    | b :: l' => if lt b a then b :: insert_sorted a l' else a :: l
    end.

Definition stable_sort (l : list A) : list A :=
    fold_right insert_sorted [] l.

  (** [b] does not belong strictly before [a]. *)
Definition not_after (a b : A) : Prop := lt b a = false.
End StableSort.

Definition lum_lt (p q : Pixel) : bool := (luminance p <? luminance q)%float.

Definition sort_by_luminance (pixels : list Pixel) : list Pixel :=
  stable_sort lum_lt pixels.

(** ** Lines 513-594: the loop *)

Record LoopState : Type := {
  previous_color : option Color;
  painted_pixels : Z;
  color_changes : Z;
  skipped_color_changes : Z
}.

Definition loop_init : LoopState :=
  {| previous_color := None; painted_pixels := 0;
     color_changes := 0; skipped_color_changes := 0 |}.

(** Lines 532-536, the polling loop, on the controller script: each round
    reads [is_paused], sleeps, then reads [should_abort]. *)
Inductive PauseEnd : Type := Resume | AbortSeen | NeverResumed.

Fixpoint pause_loop (script : list (list Cmd)) (a : App)
  : PauseEnd * App * list (list Cmd) :=
  match script with
  | [] =>
      if is_paused a
      then if should_abort a then (AbortSeen, a, []) else (NeverResumed, a, [])
      else (Resume, a, [])
  | before_test :: s1 =>
      let a1 := deliver before_test a in
      if is_paused a1
      then match s1 with
           | [] =>
               if should_abort a1 then (AbortSeen, a1, [])
               else (NeverResumed, a1, [])
           | during_sleep :: s2 =>
               let a2 := deliver during_sleep a1 in
               if should_abort a2 then (AbortSeen, a2, s2)
               else pause_loop s2 a2
           end
      else (Resume, a1, s1)
  end.

Definition wait_while_paused : M unit :=
  fun w =>
    match pause_loop (ctl w) (self w) with
    | (Resume, a, s) =>
        (Normal tt, {| self := a; ctl := s;
                       faults := faults w; jitters := jitters w |})
    | (AbortSeen, a, s) =>
        (* [self.finish_painting(); return], nothing is logged *)
        (Returned, {| self := finish_painting a; ctl := s;
                      faults := faults w; jitters := jitters w |})
    | (NeverResumed, a, s) =>
        (Hung, {| self := a; ctl := s;
                  faults := faults w; jitters := jitters w |})
    end.

(** Lines 538-545: is a colour change needed?  [None] is the
    [ValueError] of a colour that does not parse. *)
Definition needs_color_change (tol : Z) (previous : option Color)
  (c : Color) : option bool :=
  match previous with
  | None => Some true
  | Some prev =>
      match calculate_color_distance prev c with
      | None => None
      | Some distance =>
          if Py.float_le_int distance tol then Some false else Some true
      end
  end.

(** Lines 551-576: the colour-picker round trip. *)
Fixpoint type_chars (s : string) : M unit :=
  match s with
  | EmptyString => ret tt
  | String c s' => input (Send (String c EmptyString)) ;;; type_chars s'
  end.

Definition select_color (coords : Coords) (c : Color) : M unit :=
  reliable_click (button_x coords) (button_y coords) (speed coords) ;;;
  sleep (delay coords) ;;;
  reliable_click (hex_x coords) (hex_y coords) (speed coords) ;;;
  sleep (Py.pf_scale (1 # 2) (delay coords)) ;;;
  input (Send "^a") ;;;
  type_chars c ;;;
  input (Send "{ENTER}") ;;;
  sleep (Py.pf_scale (1 # 2) (delay coords)) ;;;
  reliable_click (button_x coords) (button_y coords) (speed coords) ;;;
  sleep (delay coords).

(** One iteration of the [for] loop. *)
Definition paint_pixel (coords : Coords) (total_pixels pixel_index : nat)
  (st : LoopState) (p : Pixel) : M LoopState :=
  observe ;;;
  abort <- get should_abort ;;
  (if abort
   then log_status LogAborted ;;; upd finish_painting ;;; return_
   else ret tt) ;;;
  wait_while_paused ;;;
  match needs_color_change (tolerance coords) (previous_color st) (hex_color p) with
  | None => raise ValueError
  | Some needs =>
      st1 <-
        (if needs
         then
           log_status (LogPixelColor (pixel_index + 1) total_pixels
                                     (hex_color p) (luminance p)) ;;;
           select_color coords (hex_color p) ;;;
           upd (add_action (SelectColor (hex_color p))) ;;;
           ret {| previous_color := Some (hex_color p);
                  painted_pixels := painted_pixels st;
                  color_changes := color_changes st + 1;
                  skipped_color_changes := skipped_color_changes st |}
         else
           log_status (LogSameColor (pixel_index + 1) total_pixels) ;;;
           ret {| previous_color := previous_color st;
                  painted_pixels := painted_pixels st;
                  color_changes := color_changes st;
                  skipped_color_changes := skipped_color_changes st + 1 |}) ;;
      j <- draw_jitter ;;
      reliable_click (Py.trunc (inject_Z (tile_x p) + fst j)%Q)
                     (Py.trunc (inject_Z (tile_y p) + snd j)%Q)
                     (speed coords) ;;;
      sleep (Py.pf_scale (3 # 10) (delay coords)) ;;;
      upd (add_action (PlaceTile (px p) (py p) (tile_x p) (tile_y p))) ;;;
      upd (add_ui [Progress (pixel_index + 1) total_pixels]) ;;;
      ret {| previous_color := previous_color st1;
             painted_pixels := painted_pixels st1 + 1;
             color_changes := color_changes st1;
             skipped_color_changes := skipped_color_changes st1 |}
  end.

Fixpoint paint_pixels (coords : Coords) (total_pixels pixel_index : nat)
  (st : LoopState) (pixels : list Pixel) : M LoopState :=
  match pixels with
  | [] => ret st
  | p :: rest =>
      st' <- paint_pixel coords total_pixels pixel_index st p ;;
      paint_pixels coords total_pixels (S pixel_index) st' rest
  end.

(** The body of the [try] block. *)
Definition painting_body (coords : Coords) : M unit :=
  log_status (LogCountdown 3) ;;;
  log_status (LogCountdown 2) ;;;
  log_status (LogCountdown 1) ;;;
  log_status LogStarting ;;;
  let '(tile_width, tile_height) := tile_size coords in
  log_status (LogTileSize tile_width tile_height) ;;;
  grid <- get pixel_colors ;;
  match collect_pixels grid coords tile_width tile_height with
  | inl e => raise e
  | inr collected =>
      let pixels := sort_by_luminance collected in
      log_status (LogSorted (List.length pixels)) ;;;
      st <- paint_pixels coords (List.length pixels) 0 loop_init pixels ;;
      log_status LogComplete ;;;
      log_status (LogPainted (painted_pixels st)) ;;;
      log_status (LogChanges (color_changes st) (skipped_color_changes st))
  end.

(** [painting_loop]: the body inside
    [try: ... except Exception as e: log ... finally: finish_painting()]. *)
Definition painting_loop (coords : Coords) : M unit :=
  try_finally
    (try_except (painting_body coords)
                (fun e => log_status (LogError e)))
    (upd finish_painting).

(** ** Reading a trace *)

Definition is_place (a : PaintAction) : bool :=
  match a with PlaceTile _ _ _ _ => true | SelectColor _ => false end.

Definition is_select (a : PaintAction) : bool := negb (is_place a).

Definition placed_cell (a : PaintAction) : option (Z * Z) :=
  match a with PlaceTile x y _ _ => Some (x, y) | SelectColor _ => None end.

Fixpoint filter_map {A B} (f : A -> option B) (l : list A) : list B :=
  match l with
  | [] => []
  | a :: l' =>
      match f a with
      | Some b => b :: filter_map f l'
      | None => filter_map f l'
      end
  end.

(** The colour most recently selected in a trace. *)
Fixpoint last_selected (acc : option Color) (l : list PaintAction)
  : option Color :=
  match l with
  | [] => acc
  | SelectColor c :: l' => last_selected (Some c) l'
  | PlaceTile _ _ _ _ :: l' => last_selected acc l'
  end.

(** A fresh application object holding a grid, as after [upload_image]. *)
Definition fresh_app (grid : Grid) : App :=
  {| pixel_colors := grid; is_painting := false; is_paused := false;
     should_abort := false; status_text := []; ui_calls := [];
     dialogs := []; inputs := []; actions := [] |}.

(** The worker started on a grid, the controller silent, the input layer
    sound. *)
Definition quiet_world (grid : Grid) : World :=
  {| self := set_flags true false false (fresh_app grid);
     ctl := []; faults := []; jitters := [] |}.

(** ** The scheduler seen alone

    What the loop decides, without the world: the paint actions of a run
    that is neither aborted nor interrupted by an exception, from the
    colour remembered so far.  [None] is the [ValueError] of a colour
    that does not parse.  ([paint_pixels_actions] below shows that every
    run of the loop that reaches its end performs exactly these.) *)
Fixpoint schedule (tol : Z) (previous : option Color) (pixels : list Pixel)
  : option (list PaintAction) :=
  match pixels with
  | [] => Some []
  | p :: rest =>
      let place := PlaceTile (px p) (py p) (tile_x p) (tile_y p) in
      match needs_color_change tol previous (hex_color p) with
      | None => None
      | Some true =>
          option_map (fun l => SelectColor (hex_color p) :: place :: l)
                     (schedule tol (Some (hex_color p)) rest)
      | Some false =>
          option_map (fun l => place :: l) (schedule tol previous rest)
      end
  end.

(** The remembered colour after a prefix of the sorted pixels. *)
Fixpoint previous_after (tol : Z) (previous : option Color)
  (pixels : list Pixel) : option Color :=
  match pixels with
  | [] => previous
  | p :: rest =>
      match needs_color_change tol previous (hex_color p) with
      | Some false => previous_after tol previous rest
      | _ => previous_after tol (Some (hex_color p)) rest
      end
  end.

(** A grid as [upload_image] builds it: 32 rows of 32 colours of six
    hexadecimal digits. *)
Definition valid_row (row : list Color) : bool :=
  Nat.eqb (List.length row) 32 && forallb is_hex6 row.

Definition valid_grid (grid : Grid) : bool :=
  Nat.eqb (List.length grid) 32 && forallb valid_row grid.

(** The try block ran to its last statement. *)
Definition completes (coords : Coords) (w w' : World) : Prop :=
  painting_body coords w = (Normal tt, w').

(** The actions a run added to the trace. *)
Definition added_actions (w w' : World) (l : list PaintAction) : Prop :=
  actions (self w') = (actions (self w) ++ l)%list.

(** A computation leaves the trace of paint actions alone. *)
Definition keeps_actions {A : Type} (m : M A) : Prop :=
  forall w r w', m w = (r, w') -> actions (self w') = actions (self w).

(** The controller is silent and the input layer sound from now on. *)
Definition quiet (w : World) : Prop :=
  ctl w = [] /\ faults w = [] /\
  is_paused (self w) = false /\ should_abort (self w) = false.

(* ================================================================== *)
(** * Checked tables

    Facts about finitely many binary64 values are established by running
    the functions over the whole range. *)
(* ================================================================== *)

(** [p z && p (z+1) && ...], [n] values. *)
Fixpoint all_from (n : nat) (z : Z) (p : Z -> bool) : bool :=
  match n with
  | O => true
  | S k => p z && all_from k (z + 1) p
  end.

(** The conversion of a small integer, through the primitive. *)
Definition fast_float (z : Z) : float := of_uint63 (Uint63.of_Z z).

(** The largest integer under the root: black against white. *)
Definition max_sq_distance : Z := 3 * 255 ^ 2.

(** The least integer no distance exceeds. *)
Definition max_distance_up : Z := 442.

(** For [n] under the root: the distance is at most 442, and it is zero
    for [n = 0] only. *)
Definition sqrt_row_ok (n : Z) : bool :=
  let d := PrimFloat.sqrt (fast_float n) in
  (d <=? fast_float max_distance_up)%float
  && Bool.eqb (d =? 0)%float (n =? 0).

(** The three products of the luminance, per channel value. *)
Definition channel_table (k : float) : list float :=
  map (fun n => (k * fast_float (Z.of_nat n))%float) (seq 0 256).

Definition forall3b {A : Type} (P : A -> A -> A -> bool) (R G B : list A)
  : bool :=
  forallb (fun a => forallb (fun b => forallb (fun c => P a b c) B) G) R.

(** No luminance is a NaN: the check run over all channel values. *)
Definition lum_not_nan (a b c : float) : bool := negb (is_nan (a + b + c)%float).

Definition hexdigits : list ascii :=
  list_ascii_of_string "0123456789abcdefABCDEF".

Definition hex_pair_ok (a b : ascii) : bool :=
  match Py.int_of_string 16 (String a (String b EmptyString)) with
  | Some v => (0 <=? v) && (v <=? 255)
  | None => false
  end.

(** ** Order of binary64 values

    The position of a value that is not a NaN in the order of the
    floats: class, then exponent, then mantissa. *)
Definition sf_rank (x : spec_float) : Z * Z * Z :=
  match x with
  | S754_zero _ => (0, 0, 0)
  | S754_infinity false => (2, 0, 0)
  | S754_infinity true => (-2, 0, 0)
  | S754_nan => (3, 0, 0)
  | S754_finite false m e => (1, e, Zpos m)
  | S754_finite true m e => (-1, - e, Zneg m)
  end.

Definition lex_lt (a b : Z * Z * Z) : Prop :=
  let '(a1, a2, a3) := a in
  let '(b1, b2, b3) := b in
  a1 < b1 \/ (a1 = b1 /\ (a2 < b2 \/ (a2 = b2 /\ a3 < b3))).

Definition rank (x : float) : Z * Z * Z := sf_rank (Prim2SF x).

(** In a quiet world the computation falls through, to a quiet world,
    with a value satisfying [P]. *)
Definition quiet_run {A : Type} (m : M A) (P : A -> Prop) : Prop :=
  forall w, quiet w ->
            exists v w', m w = (Normal v, w') /\ quiet w' /\ P v.

(** The two flags the worker reads are left as they are. *)
Definition keeps_flags (f : App -> App) : Prop :=
  forall a, is_paused (f a) = is_paused a /\ should_abort (f a) = should_abort a.

Definition cell_of (xy : nat * nat) : Z * Z :=
  (Z.of_nat (fst xy), Z.of_nat (snd xy)).

Definition pixel_cell (p : Pixel) : Z * Z := (px p, py p).

(** A pixel as the collection loop builds it from a valid grid. *)
Definition good_pixel (p : Pixel) : Prop :=
  is_hex6 (hex_color p) = true /\ is_nan (luminance p) = false.

(** Number of colour selections in a trace. *)
Definition count_select (l : list PaintAction) : Z :=
  Z.of_nat (List.length (filter is_select l)).

(* ================================================================== *)
(** * Sample inputs *)
(* ================================================================== *)

Definition sample_coords (tol : Z) : Coords :=
  {| start_x := 100; start_y := 200; end_x := 740; end_y := 840;
     button_x := 10; button_y := 20; hex_x := 30; hex_y := 40;
     speed := 50; delay := Py.PF_finite (5 # 100); tolerance := tol |}.

(** What the operator typed; the positions are fixed. *)
Definition sample_form (speed_text delay_text tolerance_text : string) : Form :=
  {| f_start_x := "100"; f_start_y := "200";
     f_end_x := "740"; f_end_y := "840";
     f_button_x := "10"; f_button_y := "20";
     f_hex_x := "30"; f_hex_y := "40";
     f_mouse_speed := speed_text;
     f_action_delay := delay_text;
     f_color_tolerance := tolerance_text |}.

(** Black and white in a checkerboard. *)
Definition checker_grid : Grid :=
  map (fun y => map (fun x => if Nat.even (x + y) then "000000" else "FFFFFF")
                    (seq 0 32))
      (seq 0 32).

(** One colour everywhere. *)
Definition plain_grid (c : Color) : Grid := repeat (repeat c 32) 32.

(** The first pixel of [plain_grid "102030"] under [sample_coords]. *)
Definition sample_pixel : Pixel :=
  {| luminance := luminance_rgb 16 32 48; hex_color := "102030";
     px := 0; py := 0; tile_x := 110; tile_y := 210 |}.

(** The world a quiet run of the try block ends in. *)
Definition sample_run (tol : Z) : World :=
  snd (painting_body (sample_coords tol) (quiet_world checker_grid)).

(** The operator pauses before the first cell and aborts during the first
    sleep of the polling loop. *)
Definition paused_abort_world : World :=
  {| self := set_flags true false false (fresh_app checker_grid);
     ctl := [[PressPause]; []; [PressAbort]];
     faults := []; jitters := [] |}.

(** The operator aborts after [n] cells: two readings of the flags per
    cell pass without a command, the next one sees the abort. *)
Definition abort_after (n : nat) : World :=
  {| self := set_flags true false false (fresh_app checker_grid);
     ctl := repeat [] (2 * n) ++ [[PressAbort]];
     faults := []; jitters := [] |}.

Definition is_log_aborted (m : LogMsg) : bool :=
  match m with LogAborted => true | _ => false end.

(** The colour the loop compares the next cell with is the colour of the
    last selection in the trace, and it is a proper colour. *)
Definition remembers_last_selection (st : LoopState) (w : World) : Prop :=
  previous_color st = last_selected None (actions (self w)) /\
  (forall prev, previous_color st = Some prev -> is_hex6 prev = true).

(** [distance > tolerance] against the remembered colour, or nothing
    remembered. *)
Definition far_from_previous (tol : Z) (previous : option Color) (c : Color)
  : bool :=
  match previous with
  | None => true
  | Some prev =>
      match calculate_color_distance prev c with
      | Some d => Py.float_gt_int d tol
      | None => false
      end
  end.

(* ================================================================== *)
(** * Properties of the primitives *)
(* ================================================================== *)

Lemma all_from_spec (p : Z -> bool) (n : nat) :
  forall z, all_from n z p = true ->
            forall k, z <= k < z + Z.of_nat n -> p k = true.
Proof.
  induction n as [|n IH]; intros z H k Hk.
  - simpl in Hk. lia.
  - simpl in H. apply andb_true_iff in H as [Hz Hrest].
    destruct (Z.eq_dec k z) as [->|Hne]; [exact Hz|].
    apply (IH (z + 1) Hrest). lia.
Qed.

Lemma float_of_int_fast (z : Z) :
  0 <= z < 2 ^ 63 -> Py.float_of_int z = fast_float z.
Proof.
  intros Hz. unfold Py.float_of_int, fast_float.
  rewrite <- (SF2Prim_Prim2SF (of_uint63 (Uint63.of_Z z))).
  rewrite of_uint63_spec. rewrite Uint63.of_Z_spec.
  rewrite Z.mod_small; [reflexivity|].
  change Uint63.wB with (2 ^ 63). exact Hz.
Qed.

(** ** Binary64 values that are not NaN *)

Lemma not_nan_Prim2SF (x : float) :
  is_nan x = false -> Prim2SF x <> S754_nan.
Proof.
  intros H. unfold Prim2SF. rewrite H.
  destruct (is_zero x); [congruence|].
  destruct (is_infinity x); [congruence|].
  destruct (Z.frexp x) as [r e].
  destruct (shr_fexp _ _ _ _ _) as [shr e'].
  destruct (shr_m shr); congruence.
Qed.

Lemma leb_true_not_nan (x y : float) :
  (x <=? y)%float = true -> Prim2SF x <> S754_nan.
Proof.
  rewrite leb_spec. unfold SFleb, SFcompare.
  destruct (Prim2SF x); congruence.
Qed.

(** ** The order of the floats is the order of their ranks *)

Lemma SFcompare_rank (x y : spec_float) :
  x <> S754_nan -> y <> S754_nan ->
  (SFcompare x y = Some Lt <-> lex_lt (sf_rank x) (sf_rank y)) /\
  (SFcompare x y = Some Eq <-> sf_rank x = sf_rank y) /\
  (SFcompare x y = Some Gt <-> lex_lt (sf_rank y) (sf_rank x)).
Proof.
  intros Hx Hy.
  destruct x as [sx|sx| |sx mx ex]; try congruence;
    destruct y as [sy|sy| |sy my ey]; try congruence;
    try destruct sx; try destruct sy; cbn [SFcompare sf_rank lex_lt];
    try (repeat split; intros H; first [discriminate | reflexivity | lia | congruence]).
  - (* both negative *)
    change (Pos.compare_cont Eq mx my) with (Pos.compare mx my).
    destruct (Z.compare_spec ex ey) as [He|He|He];
      [destruct (Pos.compare_spec mx my) as [Hm|Hm|Hm]; cbn [CompOpp]| |];
      repeat split; intros H;
      first [discriminate | reflexivity
            | injection H; lia | subst; reflexivity | lia ].
  - (* both positive *)
    change (Pos.compare_cont Eq mx my) with (Pos.compare mx my).
    destruct (Z.compare_spec ex ey) as [He|He|He];
      [destruct (Pos.compare_spec mx my) as [Hm|Hm|Hm]| |];
      repeat split; intros H;
      first [discriminate | reflexivity
            | injection H; lia | subst; reflexivity | lia ].
Qed.

Lemma ltb_rank (x y : float) :
  is_nan x = false -> is_nan y = false ->
  (x <? y)%float = true <-> lex_lt (rank x) (rank y).
Proof.
  intros Hx Hy. rewrite ltb_spec. unfold SFltb, rank.
  destruct (SFcompare_rank _ _ (not_nan_Prim2SF x Hx) (not_nan_Prim2SF y Hy))
    as (Hl & He & Hg).
  destruct (SFcompare (Prim2SF x) (Prim2SF y)) as [[| |]|] eqn:E.
  - split; [intros H; discriminate|]. intros H.
    pose proof (proj1 He eq_refl) as Heq. rewrite Heq in H.
    destruct (sf_rank (Prim2SF y)) as [[a b] c]. cbn in H. lia.
  - split; [intros _; apply Hl; reflexivity|reflexivity].
  - split; [intros H; discriminate|]. intros H.
    pose proof (proj1 Hg eq_refl) as Hgt.
    destruct (sf_rank (Prim2SF x)) as [[a b] c], (sf_rank (Prim2SF y)) as [[a' b'] c'].
    cbn in H, Hgt. lia.
  - split; [intros H; discriminate|]. intros H. apply Hl in H. discriminate.
Qed.

Lemma eqb_rank (x y : float) :
  is_nan x = false -> is_nan y = false ->
  (x =? y)%float = true <-> rank x = rank y.
Proof.
  intros Hx Hy. rewrite eqb_spec. unfold SFeqb, rank.
  destruct (SFcompare_rank _ _ (not_nan_Prim2SF x Hx) (not_nan_Prim2SF y Hy))
    as (Hl & He & Hg).
  destruct (SFcompare (Prim2SF x) (Prim2SF y)) as [[| |]|] eqn:E.
  - split; [intros _; apply He; reflexivity|reflexivity].
  - split; [intros H; discriminate|]. intros H. apply He in H. discriminate.
  - split; [intros H; discriminate|]. intros H. apply He in H. discriminate.
  - split; [intros H; discriminate|]. intros H. apply He in H. discriminate.
Qed.

Lemma eqb_true_not_nan (x y : float) :
  (x =? y)%float = true -> is_nan x = false /\ is_nan y = false.
Proof.
  rewrite eqb_spec. unfold is_nan. rewrite !eqb_spec. unfold SFeqb.
  destruct (Prim2SF x) as [s|s| |s m e], (Prim2SF y) as [s'|s'| |s' m' e'];
    cbn [SFcompare]; try discriminate; intros _; split;
    try destruct s; try destruct s'; try reflexivity;
    rewrite ?Z.compare_refl; change (Pos.compare_cont Eq ?a ?a) with (Pos.compare a a);
    rewrite ?Pos.compare_refl; reflexivity.
Qed.

Lemma lex_lt_asym (a b : Z * Z * Z) : lex_lt a b -> ~ lex_lt b a.
Proof.
  destruct a as [[a1 a2] a3], b as [[b1 b2] b3]. cbn. lia.
Qed.

Lemma lex_lt_negtrans (a b c : Z * Z * Z) :
  ~ lex_lt b a -> ~ lex_lt c b -> ~ lex_lt c a.
Proof.
  destruct a as [[a1 a2] a3], b as [[b1 b2] b3], c as [[c1 c2] c3]. cbn. lia.
Qed.

Lemma lex_lt_irrefl (a : Z * Z * Z) : ~ lex_lt a a.
Proof. destruct a as [[a1 a2] a3]. cbn. lia. Qed.

Lemma lex_lt_total (a b : Z * Z * Z) : lex_lt a b \/ a = b \/ lex_lt b a.
Proof.
  destruct a as [[a1 a2] a3], b as [[b1 b2] b3]. cbn.
  destruct (Z.lt_trichotomy a1 b1) as [?|[?|?]];
    destruct (Z.lt_trichotomy a2 b2) as [?|[?|?]];
    destruct (Z.lt_trichotomy a3 b3) as [?|[?|?]]; subst; auto; lia.
Qed.

(** ** Valid binary64 values have 53-bit mantissas *)

Lemma digits2_pos_bound (m : positive) :
  Zpos m < 2 ^ Zpos (digits2_pos m).
Proof.
  induction m as [p IH|p IH|]; cbn [digits2_pos].
  - rewrite Pos2Z.inj_succ, Z.pow_succ_r by lia. lia.
  - rewrite Pos2Z.inj_succ, Z.pow_succ_r by lia. lia.
  - reflexivity.
Qed.

Lemma valid_mantissa_bound (x : float) (s : bool) (m : positive) (e : Z) :
  Prim2SF x = S754_finite s m e -> Zpos m < 2 ^ 53.
Proof.
  intros Hx. pose proof (Prim2SF_valid x) as Hv. rewrite Hx in Hv.
  cbn [valid_binary] in Hv. unfold bounded, canonical_mantissa, fexp in Hv.
  apply andb_true_iff in Hv as [Hc _]. apply Z.eqb_eq in Hc.
  pose proof (digits2_pos_bound m) as Hd.
  assert (Hle : Zpos (digits2_pos m) <= 53) by (unfold prec in Hc; lia).
  eapply Z.lt_le_trans; [exact Hd|].
  apply Z.pow_le_mono_r; lia.
Qed.

(** ** Comparison of a float with an integer *)

Lemma float_cmp_int_mono (d : float) (t t' : Z) :
  t <= t' ->
  (Py.float_cmp_int d t = Some Lt -> Py.float_cmp_int d t' = Some Lt) /\
  (Py.float_cmp_int d t = Some Eq -> t < t' -> Py.float_cmp_int d t' = Some Lt) /\
  (Py.float_cmp_int d t' = Some Gt -> Py.float_cmp_int d t = Some Gt) /\
  (Py.float_cmp_int d t' = Some Eq -> t < t' -> Py.float_cmp_int d t = Some Gt).
Proof.
  intros Hle. unfold Py.float_cmp_int.
  destruct (Prim2SF d) as [s| s| |s m e].
  - destruct (Z.compare_spec 0 t), (Z.compare_spec 0 t');
      repeat split; intros; first [congruence | exfalso; lia].
  - destruct s; repeat split; intros; congruence.
  - repeat split; intros; discriminate.
  - set (v := if s then Z.neg m else Z.pos m).
    destruct (0 <=? e) eqn:He.
    + destruct (Z.compare_spec (v * 2 ^ e) t), (Z.compare_spec (v * 2 ^ e) t');
        repeat split; intros; first [congruence | exfalso; lia].
    + apply Z.leb_gt in He.
      assert (Hp : 0 < 2 ^ (- e)) by (apply Z.pow_pos_nonneg; lia).
      destruct (Z.compare_spec v (t * 2 ^ (- e))),
               (Z.compare_spec v (t' * 2 ^ (- e)));
        repeat split; intros; first [congruence | exfalso; nia].
Qed.

Lemma float_le_int_mono (d : float) (t t' : Z) :
  t <= t' -> Py.float_le_int d t = true -> Py.float_le_int d t' = true.
Proof.
  intros Hle. unfold Py.float_le_int.
  destruct (float_cmp_int_mono d t t' Hle) as (Hl & He & _ & _).
  destruct (Py.float_cmp_int d t) as [[| |]|] eqn:E; try discriminate; intros _.
  - destruct (Z.eq_dec t t') as [<-|Hne]; [rewrite E; reflexivity|].
    rewrite He; [reflexivity|reflexivity|lia].
  - rewrite Hl; reflexivity.
Qed.

Lemma float_gt_int_not_le (d : float) (t : Z) :
  Prim2SF d <> S754_nan ->
  Py.float_gt_int d t = negb (Py.float_le_int d t).
Proof.
  unfold Py.float_gt_int, Py.float_le_int, Py.float_cmp_int.
  destruct (Prim2SF d) as [s|s| |s m e]; intros H; try congruence.
  - destruct (0 ?= t); reflexivity.
  - destruct s; reflexivity.
  - destruct (0 <=? e); match goal with |- context [?a ?= ?b] => destruct (a ?= b) end;
      reflexivity.
Qed.

Lemma float_eq_int_le (d : float) (t : Z) :
  Py.float_eq_int d t = true -> Py.float_le_int d t = true.
Proof.
  unfold Py.float_eq_int, Py.float_le_int.
  destruct (Py.float_cmp_int d t) as [[| |]|]; congruence.
Qed.

Lemma compare_cont_Eq (a b : positive) :
  Pos.compare_cont Eq a b = Pos.compare a b.
Proof. reflexivity. Qed.

Lemma pos_compare_le (a b : positive) :
  match (a ?= b)%positive with Gt => false | _ => true end = true ->
  Z.pos a <= Z.pos b.
Proof.
  destruct (Pos.compare_spec a b); [lia|lia|discriminate].
Qed.

(** Below the float 442.0 is below every integer from 442 on. *)
Lemma leb_442_le_int (d : float) (t : Z) :
  (d <=? fast_float max_distance_up)%float = true ->
  max_distance_up <= t -> Py.float_le_int d t = true.
Proof.
  intros Hleb Ht. apply (float_le_int_mono d max_distance_up t Ht).
  rewrite leb_spec in Hleb.
  assert (Hc : Prim2SF (fast_float max_distance_up)
               = S754_finite false 7775746231631872 (-44))
    by (vm_compute; reflexivity).
  rewrite Hc in Hleb. unfold max_distance_up.
  unfold Py.float_le_int, Py.float_cmp_int.
  destruct (Prim2SF d) as [s|s| |s m e] eqn:Hd.
  - reflexivity.
  - destruct s; [reflexivity|discriminate].
  - discriminate.
  - pose proof (valid_mantissa_bound d s m e Hd) as Hm.
    destruct s.
    + (* negative *)
      destruct (0 <=? e) eqn:He.
      * assert (H : Z.neg m * 2 ^ e < 442).
        { apply Z.leb_le in He. pose proof (Z.pow_pos_nonneg 2 e ltac:(lia) He). nia. }
        apply Z.compare_lt_iff in H. rewrite H. reflexivity.
      * assert (H : Z.neg m < 442 * 2 ^ (- e)).
        { apply Z.leb_gt in He. pose proof (Z.pow_pos_nonneg 2 (- e) ltac:(lia) ltac:(lia)). nia. }
        apply Z.compare_lt_iff in H. rewrite H. reflexivity.
    + unfold SFleb in Hleb. cbn [SFcompare] in Hleb.
      rewrite compare_cont_Eq in Hleb.
      assert (Hk : 442 * 2 ^ 44 = 7775746231631872) by reflexivity.
      destruct (Z.compare_spec e (-44)) as [He|He|He]; [| |discriminate].
      * subst e.
        apply pos_compare_le in Hleb. rewrite <- Hk in Hleb.
        destruct (0 <=? -44) eqn:E; [discriminate E|].
        replace (- -44) with 44 by reflexivity.
        destruct (Z.compare_spec (Z.pos m) (442 * 2 ^ 44));
          [reflexivity|reflexivity|lia].
      * assert (He' : (0 <=? e) = false) by (apply Z.leb_gt; lia).
        rewrite He'.
        assert (H : Z.pos m < 442 * 2 ^ (- e)).
        { assert (2 ^ 45 <= 2 ^ (- e)) by (apply Z.pow_le_mono_r; lia).
          assert (H53 : 2 ^ 53 = 256 * 2 ^ 45) by reflexivity. nia. }
        apply Z.compare_lt_iff in H. rewrite H. reflexivity.
Qed.

(** ** The square root table *)

Lemma sqrt_table :
  all_from (Z.to_nat (max_sq_distance + 1)) 0 sqrt_row_ok = true.
Proof. vm_cast_no_check (@eq_refl bool true). Qed.

Lemma sqrt_row (n : Z) :
  0 <= n <= max_sq_distance ->
  (math_sqrt n <=? fast_float max_distance_up)%float = true /\
  ((math_sqrt n =? 0)%float = true <-> n = 0).
Proof.
  intros Hn.
  assert (H : sqrt_row_ok n = true).
  { apply (all_from_spec _ _ 0 sqrt_table).
    rewrite Z2Nat.id; unfold max_sq_distance in *; lia. }
  unfold sqrt_row_ok in H. unfold math_sqrt.
  rewrite float_of_int_fast by (unfold max_sq_distance in Hn; lia).
  apply andb_true_iff in H as [H1 H2]. split; [exact H1|].
  apply Bool.eqb_prop in H2. rewrite H2. apply Z.eqb_eq.
Qed.

Lemma math_sqrt_not_nan (n : Z) :
  0 <= n <= max_sq_distance -> Prim2SF (math_sqrt n) <> S754_nan.
Proof.
  intros Hn. destruct (sqrt_row n Hn) as [H _].
  exact (leb_true_not_nan _ _ H).
Qed.

Lemma math_sqrt_le_max (n t : Z) :
  0 <= n <= max_sq_distance -> max_distance_up <= t ->
  Py.float_le_int (math_sqrt n) t = true.
Proof.
  intros Hn Ht. destruct (sqrt_row n Hn) as [H _].
  exact (leb_442_le_int _ _ H Ht).
Qed.

Lemma math_sqrt_0_le (t : Z) :
  0 <= t -> Py.float_le_int (math_sqrt 0) t = true.
Proof.
  intros Ht. unfold Py.float_le_int, Py.float_cmp_int.
  assert (H : Prim2SF (math_sqrt 0) = S754_zero false) by (vm_compute; reflexivity).
  rewrite H. destruct (Z.compare_spec 0 t); [reflexivity|reflexivity|lia].
Qed.

Lemma math_sqrt_0_gt (t : Z) :
  t < 0 -> Py.float_le_int (math_sqrt 0) t = false.
Proof.
  intros Ht. unfold Py.float_le_int, Py.float_cmp_int.
  assert (H : Prim2SF (math_sqrt 0) = S754_zero false) by (vm_compute; reflexivity).
  rewrite H. destruct (Z.compare_spec 0 t); [lia|lia|reflexivity].
Qed.

(** ** The luminance table *)

Lemma lum_table :
  forall3b lum_not_nan (channel_table 0.299) (channel_table 0.587)
           (channel_table 0.114) = true.
Proof. vm_cast_no_check (@eq_refl bool true). Qed.

Lemma channel_table_In (k : float) (v : Z) :
  0 <= v <= 255 -> In (k * Py.float_of_int v)%float (channel_table k).
Proof.
  intros Hv. unfold channel_table.
  rewrite float_of_int_fast by lia.
  replace v with (Z.of_nat (Z.to_nat v)) by lia.
  apply (in_map (fun n => (k * fast_float (Z.of_nat n))%float)).
  apply in_seq. lia.
Qed.

Lemma forall3b_spec {A : Type} (P : A -> A -> A -> bool) (R G B : list A) :
  forall3b P R G B = true ->
  forall a b c, In a R -> In b G -> In c B -> P a b c = true.
Proof.
  unfold forall3b. intros H a b c Ha Hb Hc.
  rewrite forallb_forall in H. specialize (H a Ha).
  rewrite forallb_forall in H. specialize (H b Hb).
  rewrite forallb_forall in H. exact (H c Hc).
Qed.

Lemma luminance_not_nan (r g b : Z) :
  0 <= r <= 255 -> 0 <= g <= 255 -> 0 <= b <= 255 ->
  is_nan (luminance_rgb r g b) = false.
Proof.
  intros Hr Hg Hb. unfold luminance_rgb.
  apply negb_true_iff.
  apply (forall3b_spec lum_not_nan _ _ _ lum_table);
    apply channel_table_In; assumption.
Qed.

(** ** Colours of six hexadecimal digits *)

Lemma is_hexdigit_In (c : ascii) : is_hexdigit c = true -> In c hexdigits.
Proof.
  intros H.
  destruct c as [[] [] [] [] [] [] [] []]; try discriminate H;
    vm_compute; repeat (try (left; reflexivity); right); contradiction.
Qed.

Lemma hex_pair_table :
  forallb (fun a => forallb (hex_pair_ok a) hexdigits) hexdigits = true.
Proof. vm_compute. reflexivity. Qed.

Lemma hex_lower_table :
  forallb (fun a => is_hexdigit (Py.lower_ascii a)) hexdigits = true.
Proof. vm_compute. reflexivity. Qed.

Lemma hex_pair (a b : ascii) :
  is_hexdigit a = true -> is_hexdigit b = true ->
  exists v, Py.int_of_string 16 (String a (String b EmptyString)) = Some v
            /\ 0 <= v <= 255.
Proof.
  intros Ha Hb. pose proof hex_pair_table as H.
  rewrite forallb_forall in H. specialize (H a (is_hexdigit_In a Ha)).
  rewrite forallb_forall in H. specialize (H b (is_hexdigit_In b Hb)).
  unfold hex_pair_ok in H.
  destruct (Py.int_of_string 16 (String a (String b EmptyString))) as [v|];
    [|discriminate].
  exists v. split; [reflexivity|]. apply andb_true_iff in H as [H1 H2]. lia.
Qed.

Lemma is_hexdigit_lower (a : ascii) :
  is_hexdigit a = true -> is_hexdigit (Py.lower_ascii a) = true.
Proof.
  intros Ha. pose proof hex_lower_table as H.
  rewrite forallb_forall in H. exact (H a (is_hexdigit_In a Ha)).
Qed.

Lemma is_hex6_inv (s : Color) :
  is_hex6 s = true ->
  exists a0 a1 a2 a3 a4 a5,
    s = String a0 (String a1 (String a2 (String a3 (String a4
          (String a5 EmptyString)))))
    /\ is_hexdigit a0 = true /\ is_hexdigit a1 = true
    /\ is_hexdigit a2 = true /\ is_hexdigit a3 = true
    /\ is_hexdigit a4 = true /\ is_hexdigit a5 = true.
Proof.
  unfold is_hex6. intros H. apply andb_true_iff in H as [Hlen Hall].
  apply Nat.eqb_eq in Hlen.
  destruct s as [|a0 [|a1 [|a2 [|a3 [|a4 [|a5 [|a6 s]]]]]]]; try discriminate Hlen.
  cbn [list_ascii_of_string forallb] in Hall.
  repeat (apply andb_true_iff in Hall as [? Hall]).
  exists a0, a1, a2, a3, a4, a5. repeat split; assumption.
Qed.

Lemma parse_rgb_hex6 (s : Color) :
  is_hex6 s = true ->
  exists r g b, parse_rgb s = Some (r, g, b)
                /\ 0 <= r <= 255 /\ 0 <= g <= 255 /\ 0 <= b <= 255.
Proof.
  intros H. destruct (is_hex6_inv s H)
    as (a0 & a1 & a2 & a3 & a4 & a5 & -> & H0 & H1 & H2 & H3 & H4 & H5).
  destruct (hex_pair a0 a1 H0 H1) as (r & Hr & Rr).
  destruct (hex_pair a2 a3 H2 H3) as (g & Hg & Rg).
  destruct (hex_pair a4 a5 H4 H5) as (b & Hb & Rb).
  exists r, g, b. unfold parse_rgb, Py.slice.
  cbn [substring Nat.sub]. rewrite Hr, Hg, Hb. auto.
Qed.

Lemma lower_hex6 (s : Color) : is_hex6 s = true -> is_hex6 (Py.lower s) = true.
Proof.
  intros H. destruct (is_hex6_inv s H)
    as (a0 & a1 & a2 & a3 & a4 & a5 & -> & H0 & H1 & H2 & H3 & H4 & H5).
  unfold is_hex6. cbn [Py.lower String.length Nat.eqb list_ascii_of_string forallb].
  rewrite !is_hexdigit_lower by assumption. reflexivity.
Qed.

(** ** The integer under the root *)

Lemma sq_distance_sym (c1 c2 : Z * Z * Z) : sq_distance c1 c2 = sq_distance c2 c1.
Proof.
  destruct c1 as [[r1 g1] b1], c2 as [[r2 g2] b2]. unfold sq_distance. ring.
Qed.

Lemma sq_distance_zero (c1 c2 : Z * Z * Z) : sq_distance c1 c2 = 0 <-> c1 = c2.
Proof.
  destruct c1 as [[r1 g1] b1], c2 as [[r2 g2] b2]. unfold sq_distance. split.
  - rewrite !Z.pow_2_r. intros H.
    pose proof (Z.square_nonneg (r2 - r1)).
    pose proof (Z.square_nonneg (g2 - g1)).
    pose proof (Z.square_nonneg (b2 - b1)).
    assert (Hr : (r2 - r1) * (r2 - r1) = 0) by lia.
    assert (Hg : (g2 - g1) * (g2 - g1) = 0) by lia.
    assert (Hb : (b2 - b1) * (b2 - b1) = 0) by lia.
    apply Z.mul_eq_0 in Hr, Hg, Hb.
    f_equal; [f_equal|]; lia.
  - intros H. injection H as -> -> ->. ring.
Qed.

Lemma sq_distance_range (r1 g1 b1 r2 g2 b2 : Z) :
  0 <= r1 <= 255 -> 0 <= g1 <= 255 -> 0 <= b1 <= 255 ->
  0 <= r2 <= 255 -> 0 <= g2 <= 255 -> 0 <= b2 <= 255 ->
  0 <= sq_distance (r1, g1, b1) (r2, g2, b2) <= max_sq_distance.
Proof.
  intros. unfold sq_distance, max_sq_distance. rewrite !Z.pow_2_r.
  assert (forall a b, 0 <= a <= 255 -> 0 <= b <= 255 ->
                      0 <= (b - a) * (b - a) <= 255 * 255) as Hsq
    by (intros a b Ha Hb; set (d := b - a);
        assert (-255 <= d <= 255) by (unfold d; lia); clearbody d; nia).
  pose proof (Hsq r1 r2 ltac:(assumption) ltac:(assumption)).
  pose proof (Hsq g1 g2 ltac:(assumption) ltac:(assumption)).
  pose proof (Hsq b1 b2 ltac:(assumption) ltac:(assumption)).
  lia.
Qed.

Lemma distance_hex6 (c1 c2 : Color) :
  is_hex6 c1 = true -> is_hex6 c2 = true ->
  exists t1 t2,
    parse_rgb c1 = Some t1 /\ parse_rgb c2 = Some t2 /\
    calculate_color_distance c1 c2 = Some (math_sqrt (sq_distance t1 t2)) /\
    0 <= sq_distance t1 t2 <= max_sq_distance.
Proof.
  intros H1 H2.
  destruct (parse_rgb_hex6 c1 H1) as (r1 & g1 & b1 & E1 & ? & ? & ?).
  destruct (parse_rgb_hex6 c2 H2) as (r2 & g2 & b2 & E2 & ? & ? & ?).
  exists (r1, g1, b1), (r2, g2, b2). unfold calculate_color_distance.
  rewrite E1, E2. repeat split; try reflexivity; apply sq_distance_range; assumption.
Qed.

Lemma luminance_hex6 (c : Color) :
  is_hex6 c = true ->
  exists l, calculate_luminance c = Some l /\ is_nan l = false.
Proof.
  intros H. destruct (parse_rgb_hex6 c H) as (r & g & b & E & ? & ? & ?).
  exists (luminance_rgb r g b). unfold calculate_luminance. rewrite E.
  split; [reflexivity|]. apply luminance_not_nan; assumption.
Qed.

(* ================================================================== *)
(** * The stable sort *)
(* ================================================================== *)

Section StableSortFacts.
Context {A : Type} (lt : A -> A -> bool).

Lemma insert_sorted_perm (a : A) (l : list A) :
    Permutation (insert_sorted lt a l) (a :: l).
  Proof.
    induction l as [|b l IH]; cbn [insert_sorted]; [reflexivity|].
    destruct (lt b a); [|reflexivity].
    rewrite IH. apply perm_swap.
  Qed.

Lemma stable_sort_perm (l : list A) : Permutation (stable_sort lt l) l.
  Proof.
    induction l as [|a l IH]; cbn [stable_sort fold_right]; [reflexivity|].
    fold (stable_sort lt l). rewrite insert_sorted_perm. now constructor.
  Qed.

Lemma stable_sort_length (l : list A) :
    List.length (stable_sort lt l) = List.length l.
  Proof. apply Permutation_length, stable_sort_perm. Qed.

  (** Elements selected by a test that never holds on both sides of a
      strict inequality keep their relative order. *)
Section Stability.
Variable f : A -> bool.
Hypothesis f_separates :
      forall a b, lt b a = true -> f a = true -> f b = false.

Lemma filter_insert_sorted (a : A) (l : list A) :
      filter f (insert_sorted lt a l)
      = if f a then a :: filter f l else filter f l.
    Proof.
      induction l as [|b l IH]; cbn [insert_sorted filter]; [reflexivity|].
      destruct (lt b a) eqn:Hba; cbn [filter]; [|reflexivity].
      rewrite IH. destruct (f a) eqn:Ha; [|reflexivity].
      rewrite (f_separates a b Hba Ha). reflexivity.
    Qed.

Lemma filter_stable_sort (l : list A) :
      filter f (stable_sort lt l) = filter f l.
    Proof.
      induction l as [|a l IH]; cbn [stable_sort fold_right filter]; [reflexivity|].
      fold (stable_sort lt l). rewrite filter_insert_sorted, IH. reflexivity.
    Qed.
End Stability.

  (** On a domain where [lt] is a strict weak order the result is
      sorted. *)
Section Sortedness.
Variable D : A -> Prop.
Hypothesis lt_asym :
      forall a b, D a -> D b -> lt a b = true -> lt b a = false.
Hypothesis lt_negtrans :
      forall a b c, D a -> D b -> D c ->
                    lt b a = false -> lt c b = false -> lt c a = false.

Lemma insert_sorted_sorted (a : A) (l : list A) :
      D a -> Forall D l -> StronglySorted (not_after lt) l ->
      StronglySorted (not_after lt) (insert_sorted lt a l).
    Proof.
      intros Da Dl Hs. induction Hs as [|b l Hs IH Hb]; cbn [insert_sorted].
      - constructor; constructor.
      - inversion Dl as [|? ? Db Dl']; subst.
        destruct (lt b a) eqn:Hba.
        + constructor; [apply IH; assumption|].
          apply (Permutation_Forall (Permutation_sym (insert_sorted_perm a l))).
          constructor; [|assumption].
          unfold not_after. apply lt_asym; assumption.
        + constructor; [constructor; assumption|].
          constructor; [exact Hba|].
          rewrite Forall_forall in Hb, Dl' |- *. intros c Hc.
          unfold not_after in *.
          apply (lt_negtrans a b c Da Db (Dl' c Hc) Hba (Hb c Hc)).
    Qed.

Lemma stable_sort_sorted (l : list A) :
      Forall D l -> StronglySorted (not_after lt) (stable_sort lt l).
    Proof.
      induction l as [|a l IH]; intros Dl; cbn [stable_sort fold_right].
      - constructor.
      - inversion Dl; subst. fold (stable_sort lt l).
        apply insert_sorted_sorted; [assumption| |apply IH; assumption].
        apply (Permutation_Forall (Permutation_sym (stable_sort_perm l))).
        assumption.
    Qed.
End Sortedness.
End StableSortFacts.

(** ** The luminance order *)

Lemma ltb_true_not_nan (x y : float) :
  (x <? y)%float = true -> is_nan x = false /\ is_nan y = false.
Proof.
  rewrite ltb_spec. unfold is_nan. rewrite !eqb_spec. unfold SFltb, SFeqb.
  destruct (Prim2SF x) as [s|s| |s m e], (Prim2SF y) as [s'|s'| |s' m' e'];
    cbn [SFcompare]; try discriminate; intros _; split;
    try destruct s; try destruct s'; try reflexivity;
    rewrite ?Z.compare_refl, ?compare_cont_Eq, ?Pos.compare_refl; reflexivity.
Qed.

Lemma lum_lt_asym (p q : Pixel) :
  lum_lt p q = true -> lum_lt q p = false.
Proof.
  unfold lum_lt. intros H. destruct (ltb_true_not_nan _ _ H) as [Hp Hq].
  apply (ltb_rank _ _ Hp Hq) in H.
  destruct (luminance q <? luminance p)%float eqn:E; [|reflexivity].
  apply (ltb_rank _ _ Hq Hp) in E. exfalso. exact (lex_lt_asym _ _ H E).
Qed.

Lemma lum_lt_negtrans (p q r : Pixel) :
  is_nan (luminance p) = false -> is_nan (luminance q) = false ->
  is_nan (luminance r) = false ->
  lum_lt q p = false -> lum_lt r q = false -> lum_lt r p = false.
Proof.
  unfold lum_lt. intros Hp Hq Hr H1 H2.
  destruct (luminance r <? luminance p)%float eqn:E; [|reflexivity].
  apply (ltb_rank _ _ Hr Hp) in E. exfalso.
  apply (lex_lt_negtrans (rank (luminance p)) (rank (luminance q))
                         (rank (luminance r))); [| |exact E].
  - intros C. apply (ltb_rank _ _ Hq Hp) in C. congruence.
  - intros C. apply (ltb_rank _ _ Hr Hq) in C. congruence.
Qed.

Lemma lum_eq_separates (k : float) (p q : Pixel) :
  lum_lt q p = true -> (luminance p =? k)%float = true ->
  (luminance q =? k)%float = false.
Proof.
  unfold lum_lt. intros Hlt Heq.
  destruct (ltb_true_not_nan _ _ Hlt) as [Hq Hp].
  destruct (eqb_true_not_nan _ _ Heq) as [_ Hk].
  apply (ltb_rank _ _ Hq Hp) in Hlt. apply (eqb_rank _ _ Hp Hk) in Heq.
  destruct (luminance q =? k)%float eqn:E; [|reflexivity].
  apply (eqb_rank _ _ Hq Hk) in E. rewrite Heq, <- E in Hlt.
  exfalso. exact (lex_lt_irrefl _ Hlt).
Qed.

Lemma sort_by_luminance_perm (l : list Pixel) :
  Permutation (sort_by_luminance l) l.
Proof. apply stable_sort_perm. Qed.

Lemma sort_by_luminance_sorted (l : list Pixel) :
  Forall (fun p => is_nan (luminance p) = false) l ->
  StronglySorted (not_after lum_lt) (sort_by_luminance l).
Proof.
  intros H.
  apply (stable_sort_sorted lum_lt (fun p => is_nan (luminance p) = false)).
  - intros a b _ _. apply lum_lt_asym.
  - intros a b c. apply lum_lt_negtrans.
  - exact H.
Qed.

Lemma sort_by_luminance_stable (k : float) (l : list Pixel) :
  filter (fun p => (luminance p =? k)%float) (sort_by_luminance l)
  = filter (fun p => (luminance p =? k)%float) l.
Proof.
  apply filter_stable_sort. intros a b. apply lum_eq_separates.
Qed.

(* ================================================================== *)
(** * Collecting the pixels *)
(* ================================================================== *)

Lemma cells_bounds (x y : nat) : In (x, y) cells -> (x < 32)%nat /\ (y < 32)%nat.
Proof.
  unfold cells. rewrite in_flat_map. intros (y' & Hy & Hin).
  rewrite in_map_iff in Hin. destruct Hin as (x' & E & Hx).
  injection E as -> ->. rewrite in_seq in Hx, Hy. lia.
Qed.

Lemma cells_length : List.length cells = 1024%nat.
Proof. reflexivity. Qed.

Lemma cells_NoDup : NoDup (map cell_of cells).
Proof.
  assert (H : forall l : list (Z * Z),
             (fix nodup (l : list (Z * Z)) : bool :=
                match l with
                | [] => true
                | c :: l' =>
                    negb (existsb (fun d => (fst c =? fst d) && (snd c =? snd d)) l')
                    && nodup l'
                end) l = true -> NoDup l).
  { induction l as [|c l IH]; intros H; constructor.
    - apply andb_true_iff in H as [H _]. apply negb_true_iff in H.
      intros Hin. assert (E : existsb (fun d => (fst c =? fst d) && (snd c =? snd d)) l = true).
      { apply existsb_exists. exists c. split; [exact Hin|]. rewrite !Z.eqb_refl. reflexivity. }
      congruence.
    - apply IH. apply andb_true_iff in H as [_ H]. exact H. }
  apply H. vm_compute. reflexivity.
Qed.

Lemma collect_Forall2 (f : nat * nat -> Exn + Pixel) (Q : nat * nat -> Pixel -> Prop)
  (l : list (nat * nat)) :
  (forall xy, In xy l -> exists p, f xy = inr p /\ Q xy p) ->
  exists ps, collect f l = inr ps /\ Forall2 Q l ps.
Proof.
  induction l as [|xy l IH]; intros H; cbn [collect].
  - exists []. split; [reflexivity|constructor].
  - destruct (H xy (or_introl eq_refl)) as (p & Hp & HQ). rewrite Hp.
    destruct IH as (ps & Hps & HF); [intros; apply H; right; assumption|].
    rewrite Hps. exists (p :: ps). split; [reflexivity|]. constructor; assumption.
Qed.

Lemma valid_grid_lookup (grid : Grid) (x y : nat) :
  valid_grid grid = true -> (x < 32)%nat -> (y < 32)%nat ->
  exists row c, nth_error grid y = Some row /\ nth_error row x = Some c
                /\ is_hex6 c = true.
Proof.
  unfold valid_grid. intros H Hx Hy. apply andb_true_iff in H as [Hlen Hrows].
  apply Nat.eqb_eq in Hlen. rewrite forallb_forall in Hrows.
  destruct (nth_error grid y) as [row|] eqn:Erow;
    [|apply nth_error_None in Erow; lia].
  pose proof (Hrows row (nth_error_In _ _ Erow)) as Hrow.
  unfold valid_row in Hrow. apply andb_true_iff in Hrow as [Hrl Hcs].
  apply Nat.eqb_eq in Hrl. rewrite forallb_forall in Hcs.
  destruct (nth_error row x) as [c|] eqn:Ec;
    [|apply nth_error_None in Ec; lia].
  exists row, c. split; [first [reflexivity|exact Erow]|].
  split; [first [reflexivity|exact Ec]|].
  apply Hcs. exact (nth_error_In _ _ Ec).
Qed.

Lemma make_pixel_valid (grid : Grid) (coords : Coords) (tw th : Q) (xy : nat * nat) :
  valid_grid grid = true -> In xy cells ->
  exists p, make_pixel grid coords tw th xy = inr p
            /\ (pixel_cell p = cell_of xy /\ good_pixel p
                /\ (tile_x p, tile_y p)
                   = get_tile_position (Z.of_nat (fst xy)) (Z.of_nat (snd xy))
                                       coords tw th
                /\ exists c row, nth_error grid (snd xy) = Some row
                                 /\ nth_error row (fst xy) = Some c
                                 /\ hex_color p = Py.lower c).
Proof.
  intros Hg Hin. destruct xy as [x y].
  destruct (cells_bounds x y Hin) as [Hx Hy].
  destruct (valid_grid_lookup grid x y Hg Hx Hy) as (row & c & Erow & Ec & Hc).
  unfold make_pixel. rewrite Erow, Ec.
  destruct (luminance_hex6 _ (lower_hex6 c Hc)) as (l & El & Hl). rewrite El.
  destruct (get_tile_position (Z.of_nat x) (Z.of_nat y) coords tw th) as [tx ty] eqn:Et.
  eexists. split; [reflexivity|]. cbn [fst snd]. repeat split.
  - apply lower_hex6. exact Hc.
  - exact Hl.
  - rewrite Et. reflexivity.
  - exists c, row. auto.
Qed.

Lemma Forall2_map_eq {A B C} (f : A -> C) (g : B -> C) (l : list A) (l' : list B) :
  Forall2 (fun a b => g b = f a) l l' -> map g l' = map f l.
Proof. induction 1; cbn; congruence. Qed.

Lemma Forall2_Forall_r {A B} (P : B -> Prop) (l : list A) (l' : list B) :
  Forall2 (fun _ b => P b) l l' -> Forall P l'.
Proof. induction 1; constructor; assumption. Qed.

(** On a valid grid the collection succeeds: one pixel per cell, in
    row-major order, each with a proper colour and luminance, its colour
    the lower-cased colour of a cell of the grid. *)
Lemma collect_pixels_valid (grid : Grid) (coords : Coords) (tw th : Q) :
  valid_grid grid = true ->
  exists ps, collect_pixels grid coords tw th = inr ps
             /\ map pixel_cell ps = map cell_of cells
             /\ Forall good_pixel ps
             /\ Forall (fun p => exists row c, In row grid /\ In c row
                                               /\ hex_color p = Py.lower c) ps.
Proof.
  intros Hg.
  destruct (collect_Forall2 (make_pixel grid coords tw th)
              (fun xy p => pixel_cell p = cell_of xy /\ good_pixel p
                           /\ exists row c, In row grid /\ In c row
                                             /\ hex_color p = Py.lower c) cells)
    as (ps & Hps & HF).
  { intros xy Hin. destruct (make_pixel_valid grid coords tw th xy Hg Hin)
      as (p & Hp & Hc & Hgood & _ & c & row & Er & Ec & Eh).
    exists p. repeat split; try assumption; try apply Hgood.
    exists row, c. repeat split; eauto using nth_error_In. }
  exists ps. split; [exact Hps|]. split; [|split].
  - apply Forall2_map_eq. eapply Forall2_impl; [|exact HF]. cbv beta. tauto.
  - apply (Forall2_Forall_r good_pixel cells).
    eapply Forall2_impl; [|exact HF]. cbv beta. tauto.
  - apply (Forall2_Forall_r _ cells).
    eapply Forall2_impl; [|exact HF]. cbv beta. tauto.
Qed.

(* ================================================================== *)
(** * The worker monad *)
(* ================================================================== *)

Lemma bind_Normal_inv {A B : Type} (m : M A) (k : A -> M B) (w w' : World) (v : B) :
  bind m k w = (Normal v, w') ->
  exists x w1, m w = (Normal x, w1) /\ k x w1 = (Normal v, w').
Proof.
  unfold bind. destruct (m w) as [[x| |e|] w1]; intros H; try discriminate.
  exists x, w1. auto.
Qed.

Tactic Notation "bind_inv" hyp(H) "as" ident(x) ident(w) ident(Hm) :=
  apply bind_Normal_inv in H; destruct H as (x & w & Hm & H).

(** ** What leaves the trace of actions alone *)

Lemma toggle_pause_actions (a : App) : actions (toggle_pause a) = actions a.
Proof. unfold toggle_pause. destruct (is_paused _); reflexivity. Qed.

Lemma deliver1_actions (a : App) (c : Cmd) : actions (deliver1 a c) = actions a.
Proof.
  destruct c; cbn [deliver1]; [apply toggle_pause_actions|reflexivity|].
  unfold on_ctrl_press. destruct (is_painting a);
    [apply toggle_pause_actions|reflexivity].
Qed.

Lemma deliver_actions (cs : list Cmd) (a : App) :
  actions (deliver cs a) = actions a.
Proof.
  unfold deliver. revert a. induction cs as [|c cs IH]; intros a; cbn [fold_left].
  - reflexivity.
  - rewrite IH. apply deliver1_actions.
Qed.

Lemma pause_loop_actions (n : nat) :
  forall script a r a' s',
    (List.length script <= n)%nat ->
    pause_loop script a = (r, a', s') -> actions a' = actions a.
Proof.
  induction n as [|n IH]; intros script a r a' s' Hlen H.
  - destruct script; [|cbn in Hlen; lia]. cbn in H.
    destruct (is_paused a), (should_abort a); injection H as _ <- _; reflexivity.
  - destruct script as [|cb [|cs s2]]; cbn [pause_loop] in H.
    + destruct (is_paused a), (should_abort a); injection H as _ <- _; reflexivity.
    + destruct (is_paused (deliver cb a)), (should_abort (deliver cb a));
        injection H as _ <- _; apply deliver_actions.
    + destruct (is_paused (deliver cb a)).
      * destruct (should_abort (deliver cs (deliver cb a))).
        -- injection H as _ <- _. now rewrite !deliver_actions.
        -- apply IH in H; [|cbn in Hlen |- *; lia].
           now rewrite H, !deliver_actions.
      * injection H as _ <- _. apply deliver_actions.
Qed.

Lemma keeps_ret {A} (v : A) : keeps_actions (ret v).
Proof. intros w r w' H. injection H as _ <-. reflexivity. Qed.

Lemma keeps_raise {A} (e : Exn) : keeps_actions (@raise A e).
Proof. intros w r w' H. injection H as _ <-. reflexivity. Qed.

Lemma keeps_return {A} : keeps_actions (@return_ A).
Proof. intros w r w' H. injection H as _ <-. reflexivity. Qed.

Lemma keeps_get {A} (f : App -> A) : keeps_actions (get f).
Proof. intros w r w' H. injection H as _ <-. reflexivity. Qed.

Lemma keeps_upd (f : App -> App) :
  (forall a, actions (f a) = actions a) -> keeps_actions (upd f).
Proof. intros Hf w r w' H. injection H as _ <-. apply Hf. Qed.

Lemma keeps_log (m : LogMsg) : keeps_actions (log_status m).
Proof. apply keeps_upd. reflexivity. Qed.

Lemma keeps_bind {A B} (m : M A) (k : A -> M B) :
  keeps_actions m -> (forall v, keeps_actions (k v)) -> keeps_actions (bind m k).
Proof.
  intros Hm Hk w r w' H. unfold bind in H.
  destruct (m w) as [[x| |e|] w1] eqn:E;
    try (injection H as _ <-; exact (Hm _ _ _ E)).
  rewrite (Hk x _ _ _ H). exact (Hm _ _ _ E).
Qed.

Lemma keeps_observe : keeps_actions observe.
Proof.
  intros w r w' H. unfold observe in H.
  destruct (ctl w); injection H as _ <-; [reflexivity|apply deliver_actions].
Qed.

Lemma keeps_wait : keeps_actions wait_while_paused.
Proof.
  intros w r w' H. unfold wait_while_paused in H.
  destruct (pause_loop (ctl w) (self w)) as [[e a] s] eqn:E.
  pose proof (pause_loop_actions _ _ _ _ _ _ (le_n _) E) as Ha.
  destruct e; injection H as _ <-; exact Ha.
Qed.

Lemma keeps_input (i : Input) : keeps_actions (input i).
Proof.
  intros w r w' H. unfold input in H.
  destruct (faults w) as [|[e|] rest]; injection H as _ <-; reflexivity.
Qed.

Lemma keeps_sleep (d : Py.pyfloat) : keeps_actions (sleep d).
Proof. unfold sleep. destruct (Py.sleep_ok d); [apply keeps_ret|apply keeps_raise]. Qed.

Lemma keeps_jitter : keeps_actions draw_jitter.
Proof.
  intros w r w' H. unfold draw_jitter in H.
  destruct (jitters w); injection H as _ <-; reflexivity.
Qed.

Lemma keeps_type_chars (s : string) : keeps_actions (type_chars s).
Proof.
  induction s as [|c s IH]; cbn [type_chars]; [apply keeps_ret|].
  apply keeps_bind; [apply keeps_input|intros _; exact IH].
Qed.

Lemma keeps_select_color (coords : Coords) (c : Color) :
  keeps_actions (select_color coords c).
Proof.
  unfold select_color, reliable_click.
  repeat (apply keeps_bind; [|intros _]);
    first [apply keeps_input | apply keeps_sleep | apply keeps_type_chars].
Qed.

(** ** Quiet worlds *)

Lemma quiet_ret {A} (v : A) (P : A -> Prop) : P v -> quiet_run (ret v) P.
Proof. intros HP w Hq. exists v, w. auto. Qed.

Lemma quiet_bind {A B} (m : M A) (k : A -> M B) (P : A -> Prop) (Q : B -> Prop) :
  quiet_run m P -> (forall v, P v -> quiet_run (k v) Q) -> quiet_run (bind m k) Q.
Proof.
  intros Hm Hk w Hq. destruct (Hm w Hq) as (v & w1 & E & Hq1 & HP).
  destruct (Hk v HP w1 Hq1) as (v' & w2 & E' & Hq2 & HQ).
  exists v', w2. unfold bind. rewrite E. auto.
Qed.

Lemma quiet_weaken {A} (m : M A) (P Q : A -> Prop) :
  (forall v, P v -> Q v) -> quiet_run m P -> quiet_run m Q.
Proof.
  intros HPQ Hm w Hq. destruct (Hm w Hq) as (v & w1 & E & Hq1 & HP).
  exists v, w1. auto.
Qed.

Lemma quiet_upd (f : App -> App) :
  keeps_flags f -> quiet_run (upd f) (fun _ => True).
Proof.
  intros Hf w (Hc & Hfl & Hp & Ha). exists tt. eexists. split; [reflexivity|].
  destruct (Hf (self w)) as [E1 E2].
  split; [|exact I]. unfold quiet. cbn. rewrite E1, E2. auto.
Qed.

Lemma quiet_log (m : LogMsg) : quiet_run (log_status m) (fun _ => True).
Proof. apply quiet_upd. intros a. split; reflexivity. Qed.

Lemma quiet_add_action (p : PaintAction) : quiet_run (upd (add_action p)) (fun _ => True).
Proof. apply quiet_upd. intros a. split; reflexivity. Qed.

Lemma quiet_add_ui (cs : list UiCall) : quiet_run (upd (add_ui cs)) (fun _ => True).
Proof. apply quiet_upd. intros a. split; reflexivity. Qed.

Lemma quiet_observe : quiet_run observe (fun _ => True).
Proof.
  intros w Hq. exists tt, w. unfold observe.
  destruct Hq as (Hc & ?). rewrite Hc. unfold quiet. auto.
Qed.

Lemma quiet_get_abort : quiet_run (get should_abort) (fun b => b = false).
Proof.
  intros w Hq. exists (should_abort (self w)), w.
  split; [reflexivity|]. split; [exact Hq|]. apply Hq.
Qed.

Lemma quiet_get {A} (f : App -> A) : quiet_run (get f) (fun _ => True).
Proof. intros w Hq. exists (f (self w)), w. auto. Qed.

Lemma quiet_wait : quiet_run wait_while_paused (fun _ => True).
Proof.
  intros w Hq. exists tt. destruct w as [a c f j].
  destruct Hq as (Hc & Hf & Hp & Ha). cbn in Hc, Hf, Hp, Ha. subst c f.
  unfold wait_while_paused. cbn [ctl self pause_loop]. rewrite Hp.
  eexists. split; [reflexivity|]. unfold quiet. cbn. auto.
Qed.

Lemma quiet_input (i : Input) : quiet_run (input i) (fun _ => True).
Proof.
  intros w Hq. exists tt. destruct Hq as (Hc & Hf & Hp & Ha).
  unfold input. rewrite Hf. eexists. split; [reflexivity|].
  unfold quiet. cbn. auto.
Qed.

Lemma quiet_sleep (d : Py.pyfloat) :
  Py.sleep_ok d = true -> quiet_run (sleep d) (fun _ => True).
Proof. intros H. unfold sleep. rewrite H. apply quiet_ret. exact I. Qed.

Lemma quiet_jitter : quiet_run draw_jitter (fun _ => True).
Proof.
  intros w Hq. destruct Hq as (Hc & Hf & Hp & Ha). unfold draw_jitter.
  destruct (jitters w) as [|j rest]; eexists; eexists;
    (split; [reflexivity|]); unfold quiet; cbn; auto.
Qed.

Lemma quiet_type_chars (s : string) : quiet_run (type_chars s) (fun _ => True).
Proof.
  induction s as [|c s IH]; cbn [type_chars]; [apply quiet_ret; exact I|].
  eapply quiet_bind; [apply quiet_input|intros _ _; exact IH].
Qed.

Lemma sleep_ok_scale (k : Q) (d : Py.pyfloat) :
  (0 <= k)%Q -> Py.sleep_ok d = true -> Py.sleep_ok (Py.pf_scale k d) = true.
Proof.
  destruct d as [q| |]; cbn; try discriminate. intros Hk Hq.
  apply Qle_bool_iff in Hq. apply Qle_bool_iff.
  apply Qmult_le_0_compat; assumption.
Qed.

Lemma quiet_select_color (coords : Coords) (c : Color) :
  Py.sleep_ok (delay coords) = true ->
  quiet_run (select_color coords c) (fun _ => True).
Proof.
  intros Hd. unfold select_color, reliable_click.
  repeat (eapply quiet_bind; [|intros _ _]);
    first [ apply quiet_input | apply quiet_type_chars
          | apply quiet_sleep; first [exact Hd | apply sleep_ok_scale; [discriminate|exact Hd]] ].
Qed.

(* ================================================================== *)
(** * The loop *)
(* ================================================================== *)

(** ** One iteration that falls through *)

Lemma abort_branch_not_Normal (w w' : World) (v : unit) :
  (log_status LogAborted ;;; upd finish_painting ;;; return_) w <> (Normal v, w').
Proof. cbv [bind log_status upd return_]. discriminate. Qed.

(** An iteration that reaches its end performed the colour selection
    exactly when [needs_color_change] says so, then placed the tile; the
    remembered colour changed with the selection only. *)
Lemma paint_pixel_Normal (coords : Coords) (total idx : nat) (st st' : LoopState)
  (p : Pixel) (w w' : World) :
  paint_pixel coords total idx st p w = (Normal st', w') ->
  exists needs,
    needs_color_change (tolerance coords) (previous_color st) (hex_color p)
    = Some needs /\
    actions (self w')
    = (actions (self w)
       ++ (if needs then [SelectColor (hex_color p)] else [])
       ++ [PlaceTile (px p) (py p) (tile_x p) (tile_y p)])%list /\
    previous_color st'
    = (if needs then Some (hex_color p) else previous_color st) /\
    painted_pixels st' = painted_pixels st + 1 /\
    color_changes st' = color_changes st + (if needs then 1 else 0) /\
    skipped_color_changes st'
    = skipped_color_changes st + (if needs then 0 else 1).
Proof.
  unfold paint_pixel. intros H.
  bind_inv H as u1 w1 H1. pose proof (keeps_observe _ _ _ H1) as F1.
  bind_inv H as abort w2 H2. pose proof (keeps_get _ _ _ _ H2) as F2.
  bind_inv H as u3 w3 H3.
  assert (F3 : actions (self w3) = actions (self w2)).
  { destruct abort.
    - exfalso. exact (abort_branch_not_Normal _ _ _ H3).
    - exact (keeps_ret _ _ _ _ H3). }
  bind_inv H as u4 w4 H4. pose proof (keeps_wait _ _ _ H4) as F4.
  destruct (needs_color_change (tolerance coords) (previous_color st) (hex_color p))
    as [needs|]; [|discriminate H].
  exists needs. split; [reflexivity|].
  bind_inv H as st1 w5 H5.
  bind_inv H as j w6 H6. pose proof (keeps_jitter _ _ _ H6) as F6.
  bind_inv H as u7 w7 H7. pose proof (keeps_input _ _ _ _ H7) as F7.
  bind_inv H as u8 w8 H8. pose proof (keeps_sleep _ _ _ _ H8) as F8.
  bind_inv H as u9 w9 H9. injection H9 as _ E9.
  bind_inv H as u10 w10 H10. injection H10 as _ E10.
  injection H as E11 E12. subst w' w10 w9 st'.
  cbn [self with_app actions add_ui add_action].
  rewrite F8, F7, F6.
  destruct needs.
  - bind_inv H5 as v1 y1 G1. apply keeps_log in G1.
    bind_inv H5 as v2 y2 G2. apply keeps_select_color in G2.
    bind_inv H5 as v3 y3 G3. injection G3 as _ G3.
    injection H5 as G4 G5. subst w5 y3 st1.
    cbn [self with_app actions add_action previous_color painted_pixels
         color_changes skipped_color_changes].
    rewrite G2, G1, F4, F3, F2, F1. rewrite <- app_assoc.
    repeat split; try reflexivity; lia.
  - bind_inv H5 as v1 y1 G1. apply keeps_log in G1.
    injection H5 as G4 G5. subst w5 st1.
    cbn [previous_color painted_pixels color_changes skipped_color_changes].
    rewrite G1, F4, F3, F2, F1.
    repeat split; try reflexivity; lia.
Qed.

(** ** The whole loop against the scheduler *)

Lemma paint_pixels_actions (coords : Coords) (total : nat) (pixels : list Pixel) :
  forall idx st st' w w',
    paint_pixels coords total idx st pixels w = (Normal st', w') ->
    exists acts,
      schedule (tolerance coords) (previous_color st) pixels = Some acts /\
      added_actions w w' acts /\
      previous_color st'
      = previous_after (tolerance coords) (previous_color st) pixels /\
      painted_pixels st' = painted_pixels st + Z.of_nat (List.length pixels) /\
      color_changes st' = color_changes st + count_select acts.
Proof.
  unfold added_actions.
  induction pixels as [|p rest IH]; intros idx st st' w w' H; cbn [paint_pixels] in H.
  - injection H as <- <-. exists []. cbn. rewrite app_nil_r.
    repeat split; try reflexivity; unfold count_select; cbn; lia.
  - bind_inv H as st1 w1 H1.
    destruct (paint_pixel_Normal _ _ _ _ _ _ _ _ H1)
      as (needs & Hn & Hact & Hprev & Hpaint & Hcc & _).
    destruct (IH _ _ _ _ _ H) as (acts & Hs & Hact' & Hprev' & Hpaint' & Hcc').
    cbn [schedule previous_after]. rewrite Hn. rewrite Hprev in Hs, Hprev'.
    destruct needs.
    + rewrite Hs. eexists. split; [reflexivity|].
      rewrite Hact', Hact, <- !app_assoc. cbn [app].
      repeat split; try assumption.
      * rewrite Hpaint', Hpaint. cbn [List.length]. lia.
      * rewrite Hcc', Hcc. unfold count_select. cbn [filter is_select is_place negb List.length].
        lia.
    + rewrite Hs. eexists. split; [reflexivity|].
      rewrite Hact', Hact, <- !app_assoc. cbn [app].
      repeat split; try assumption.
      * rewrite Hpaint', Hpaint. cbn [List.length]. lia.
      * rewrite Hcc', Hcc. unfold count_select. cbn [filter is_select is_place negb List.length].
        lia.
Qed.

(** ** The decision *)

Lemma needs_color_change_hex6 (tol : Z) (previous : option Color) (c : Color) :
  (forall prev, previous = Some prev -> is_hex6 prev = true) ->
  is_hex6 c = true ->
  exists needs, needs_color_change tol previous c = Some needs.
Proof.
  intros Hprev Hc. destruct previous as [prev|]; cbn [needs_color_change].
  - destruct (distance_hex6 prev c (Hprev prev eq_refl) Hc) as (t1 & t2 & _ & _ & E & _).
    rewrite E. destruct (Py.float_le_int _ tol); eauto.
  - eauto.
Qed.

(** Far enough apart is never the case from 442 on. *)
Lemma needs_color_change_max (tol : Z) (prev c : Color) :
  is_hex6 prev = true -> is_hex6 c = true -> max_distance_up <= tol ->
  needs_color_change tol (Some prev) c = Some false.
Proof.
  intros Hp Hc Ht. cbn [needs_color_change].
  destruct (distance_hex6 prev c Hp Hc) as (t1 & t2 & _ & _ & E & Hr).
  rewrite E, (math_sqrt_le_max _ _ Hr Ht). reflexivity.
Qed.

(** A colour against itself needs a change exactly under a negative
    tolerance. *)
Lemma needs_color_change_same (tol : Z) (c : Color) :
  is_hex6 c = true ->
  needs_color_change tol (Some c) c = Some (tol <? 0).
Proof.
  intros Hc. cbn [needs_color_change].
  destruct (distance_hex6 c c Hc Hc) as (t1 & t2 & E1 & E2 & E & _).
  rewrite E. assert (t1 = t2) by congruence. subst t2.
  rewrite (proj2 (sq_distance_zero t1 t1) eq_refl).
  destruct (Z.ltb_spec tol 0).
  - rewrite math_sqrt_0_gt by assumption. reflexivity.
  - rewrite math_sqrt_0_le by assumption. reflexivity.
Qed.

(** ** The scheduler *)

Lemma schedule_defined (tol : Z) (pixels : list Pixel) :
  forall previous,
    (forall prev, previous = Some prev -> is_hex6 prev = true) ->
    Forall good_pixel pixels ->
    exists acts, schedule tol previous pixels = Some acts.
Proof.
  induction pixels as [|p rest IH]; intros previous Hprev Hgood; cbn [schedule].
  - eauto.
  - inversion Hgood as [|? ? [Hp _] Hrest]; subst.
    destruct (needs_color_change_hex6 tol previous (hex_color p) Hprev Hp) as (needs & E).
    rewrite E. destruct needs.
    + destruct (IH (Some (hex_color p))) as (acts & Ea);
        [intros ? [= <-]; exact Hp|exact Hrest|].
      rewrite Ea. cbn. eauto.
    + destruct (IH previous Hprev Hrest) as (acts & Ea). rewrite Ea. cbn. eauto.
Qed.

Lemma schedule_places (tol : Z) (pixels : list Pixel) :
  forall previous acts,
    schedule tol previous pixels = Some acts ->
    filter_map placed_cell acts = map pixel_cell pixels /\
    List.length (filter is_place acts) = List.length pixels.
Proof.
  induction pixels as [|p rest IH]; intros previous acts H; cbn [schedule] in H.
  - injection H as <-. split; reflexivity.
  - destruct (needs_color_change tol previous (hex_color p)) as [[|]|];
      [| |discriminate].
    + destruct (schedule tol (Some (hex_color p)) rest) as [l|] eqn:E; [|discriminate].
      injection H as <-. destruct (IH _ _ E) as [H1 H2].
      cbn. rewrite H1, H2. split; reflexivity.
    + destruct (schedule tol previous rest) as [l|] eqn:E; [|discriminate].
      injection H as <-. destruct (IH _ _ E) as [H1 H2].
      cbn. rewrite H1, H2. split; reflexivity.
Qed.

Lemma schedule_select_le (tol : Z) (pixels : list Pixel) :
  forall previous acts,
    schedule tol previous pixels = Some acts ->
    0 <= count_select acts <= Z.of_nat (List.length pixels).
Proof.
  unfold count_select.
  induction pixels as [|p rest IH]; intros previous acts H; cbn [schedule] in H.
  - injection H as <-. cbn. lia.
  - destruct (needs_color_change tol previous (hex_color p)) as [[|]|];
      [| |discriminate].
    + destruct (schedule tol (Some (hex_color p)) rest) as [l|] eqn:E; [|discriminate].
      injection H as <-. pose proof (IH _ _ E). cbn [filter is_select is_place negb List.length].
      lia.
    + destruct (schedule tol previous rest) as [l|] eqn:E; [|discriminate].
      injection H as <-. pose proof (IH _ _ E). cbn [filter is_select is_place negb List.length].
      lia.
Qed.

(** The first cell always triggers a selection. *)
Lemma schedule_first (tol : Z) (p : Pixel) (rest : list Pixel) (acts : list PaintAction) :
  schedule tol None (p :: rest) = Some acts ->
  exists l, acts = SelectColor (hex_color p)
                     :: PlaceTile (px p) (py p) (tile_x p) (tile_y p) :: l
            /\ schedule tol (Some (hex_color p)) rest = Some l
            /\ count_select acts = 1 + count_select l.
Proof.
  cbn [schedule needs_color_change]. intros H.
  destruct (schedule tol (Some (hex_color p)) rest) as [l|]; [|discriminate].
  injection H as <-. exists l. repeat split.
  unfold count_select. cbn [filter is_select is_place negb List.length]. lia.
Qed.

(** When no cell needs a change against the remembered colour, none is
    made. *)
Lemma schedule_no_change (tol : Z) (c : Color) (pixels : list Pixel) :
  forall acts,
    Forall (fun p => needs_color_change tol (Some c) (hex_color p) = Some false)
           pixels ->
    schedule tol (Some c) pixels = Some acts -> count_select acts = 0.
Proof.
  induction pixels as [|p rest IH]; intros acts Hall H; cbn [schedule] in H.
  - injection H as <-. reflexivity.
  - inversion Hall as [|? ? Hp Hrest]; subst. rewrite Hp in H.
    destruct (schedule tol (Some c) rest) as [l|] eqn:E; [|discriminate].
    injection H as <-. unfold count_select.
    cbn [filter is_select is_place negb]. exact (IH l Hrest eq_refl).
Qed.

(** ** Completed runs *)

Lemma pixel_colors_add_log (m : LogMsg) (a : App) :
  pixel_colors (add_log m a) = pixel_colors a.
Proof. reflexivity. Qed.

(** A run of the try block that reaches its last statement performed
    the schedule of the sorted pixels of its grid. *)
Lemma completes_actions (coords : Coords) (w w' : World) :
  completes coords w w' ->
  exists collected acts,
    collect_pixels (pixel_colors (self w)) coords
                   (fst (tile_size coords)) (snd (tile_size coords))
    = inr collected /\
    schedule (tolerance coords) None (sort_by_luminance collected) = Some acts /\
    added_actions w w' acts.
Proof.
  unfold completes, painting_body. intros H.
  bind_inv H as u1 w1 H1. bind_inv H as u2 w2 H2.
  bind_inv H as u3 w3 H3. bind_inv H as u4 w4 H4.
  destruct (tile_size coords) as [tw th] eqn:Ets.
  bind_inv H as u5 w5 H5. bind_inv H as grid w6 H6.
  injection H1 as _ <-. injection H2 as _ <-. injection H3 as _ <-.
  injection H4 as _ <-. injection H5 as _ <-. injection H6 as <- <-.
  cbn [self with_app pixel_colors add_log] in H. cbn [fst snd].
  destruct (collect_pixels (pixel_colors (self w)) coords tw th) as [e|collected];
    [discriminate H|].
  bind_inv H as u7 w7 H7. injection H7 as _ <-.
  bind_inv H as st w8 H8.
  bind_inv H as u9 w9 H9. injection H9 as _ <-.
  bind_inv H as u10 w10 H10. injection H10 as _ <-.
  injection H as <-.
  destruct (paint_pixels_actions _ _ _ _ _ _ _ _ H8) as (acts & Hs & Hadd & _).
  exists collected, acts. split; [reflexivity|]. split; [exact Hs|].
  unfold added_actions in *. cbn [self with_app actions add_log] in *. exact Hadd.
Qed.

(** ** Quiet runs reach the end *)

Lemma quiet_paint_pixel (coords : Coords) (total idx : nat) (st : LoopState) (p : Pixel) :
  Py.sleep_ok (delay coords) = true ->
  (forall prev, previous_color st = Some prev -> is_hex6 prev = true) ->
  is_hex6 (hex_color p) = true ->
  quiet_run (paint_pixel coords total idx st p)
            (fun st' => forall prev, previous_color st' = Some prev ->
                                     is_hex6 prev = true).
Proof.
  intros Hd Hprev Hp. unfold paint_pixel.
  eapply quiet_bind; [apply quiet_observe|intros _ _].
  eapply quiet_bind; [apply quiet_get_abort|intros abort ->].
  eapply quiet_bind with (P := fun _ => True);
    [apply quiet_ret; exact I|intros _ _].
  eapply quiet_bind; [apply quiet_wait|intros _ _].
  destruct (needs_color_change_hex6 (tolerance coords) _ _ Hprev Hp) as (needs & ->).
  eapply quiet_bind with
    (P := fun st1 => forall prev, previous_color st1 = Some prev -> is_hex6 prev = true).
  - destruct needs.
    + eapply quiet_bind; [apply quiet_log|intros _ _].
      eapply quiet_bind; [apply quiet_select_color; exact Hd|intros _ _].
      eapply quiet_bind; [apply quiet_add_action|intros _ _].
      apply quiet_ret. cbn. intros prev [= <-]. exact Hp.
    + eapply quiet_bind; [apply quiet_log|intros _ _].
      apply quiet_ret. exact Hprev.
  - intros st1 Hst1.
    eapply quiet_bind; [apply quiet_jitter|intros j _].
    eapply quiet_bind; [apply quiet_input|intros _ _].
    eapply quiet_bind;
      [apply quiet_sleep, sleep_ok_scale; [discriminate|exact Hd]|intros _ _].
    eapply quiet_bind; [apply quiet_add_action|intros _ _].
    eapply quiet_bind; [apply quiet_add_ui|intros _ _].
    apply quiet_ret. exact Hst1.
Qed.

Lemma quiet_paint_pixels (coords : Coords) (total : nat) (pixels : list Pixel) :
  Py.sleep_ok (delay coords) = true ->
  Forall good_pixel pixels ->
  forall idx st,
    (forall prev, previous_color st = Some prev -> is_hex6 prev = true) ->
    quiet_run (paint_pixels coords total idx st pixels) (fun _ => True).
Proof.
  intros Hd. induction 1 as [|p rest [Hp _] Hrest IH]; intros idx st Hprev;
    cbn [paint_pixels].
  - apply quiet_ret. exact I.
  - eapply quiet_bind; [apply quiet_paint_pixel; assumption|].
    intros st1 Hst1. apply IH. exact Hst1.
Qed.

Lemma quiet_completes (coords : Coords) (w : World) :
  valid_grid (pixel_colors (self w)) = true ->
  Py.sleep_ok (delay coords) = true ->
  quiet w -> exists w', completes coords w w'.
Proof.
  intros Hg Hd Hq. unfold completes.
  assert (Hrun : forall P : unit -> Prop,
             (forall u, P u) ->
             exists v w', painting_body coords w = (Normal v, w') /\ quiet w' /\ P v).
  { intros P HP. unfold painting_body.
    destruct w as [a c f j]. destruct Hq as (Hc & Hf & Hpa & Hab).
    cbn [ctl faults self] in *. subst c f.
    destruct (tile_size coords) as [tw th].
    cbv [bind log_status upd get with_app self ctl faults jitters].
    cbn [pixel_colors add_log] in *.
    destruct (collect_pixels_valid (pixel_colors a) coords tw th Hg)
      as (ps & -> & _ & Hgood & _).
    assert (Hsg : Forall good_pixel (sort_by_luminance ps)).
    { apply (Permutation_Forall (Permutation_sym (sort_by_luminance_perm ps))).
      exact Hgood. }
    match goal with
    | |- context [paint_pixels ?c ?t ?i ?s ?px ?w0] =>
        destruct (quiet_paint_pixels c t px Hd Hsg i s
                    ltac:(cbn; discriminate) w0) as (st & w1 & E & Hq1 & _)
    end.
    { unfold quiet. cbn. auto. }
    rewrite E. destruct w1 as [a1 c1 f1 j1].
    eexists. eexists. split; [reflexivity|]. split; [|apply HP].
    destruct Hq1 as (? & ? & ? & ?). unfold quiet. cbn in *. auto. }
  destruct (Hrun (fun _ => True) (fun _ => I)) as ([] & w' & E & _).
  exists w'. exact E.
Qed.

(* ================================================================== *)
(** * The colour distance *)
(* ================================================================== *)



(* ================================================================== *)
(** * Tile geometry *)
(* ================================================================== *)

Lemma trunc_Qeq (q q' : Q) : (q == q')%Q -> Py.trunc q = Py.trunc q'.
Proof.
  unfold Qeq, Py.trunc. destruct q as [n d], q' as [n' d']. cbn [Qnum Qden].
  intros H.
  rewrite <- (Z.quot_mul_cancel_r n (Zpos d) (Zpos d')) by lia.
  rewrite H.
  rewrite (Z.mul_comm (Zpos d) (Zpos d')).
  apply Z.quot_mul_cancel_r; lia.
Qed.

Lemma trunc_over_64 (n : Z) : Py.trunc (inject_Z n / 64)%Q = Z.quot n 64.
Proof. unfold Py.trunc. cbn. rewrite Z.mul_1_r. reflexivity. Qed.

Lemma tile_center_closed_form (start idx span : Z) :
  Py.trunc (inject_Z start + inject_Z idx * (inject_Z span / 32)
            + inject_Z span / 32 / 2)%Q
  = Z.quot (64 * start + (2 * idx + 1) * span) 64.
Proof.
  rewrite <- trunc_over_64. apply trunc_Qeq.
  unfold Qeq, Qdiv, Qinv, Qplus, Qmult, inject_Z. cbn [Qnum Qden].
  rewrite ?Pos2Z.inj_mul. ring.
Qed.


(** The binary64 computation of the source gives the same points. *)
Example get_tile_position_f64_agrees :
  let c := sample_coords 0 in
  let w := Py.int_div_pow2 (end_x c - start_x c) 5 in
  let h := Py.int_div_pow2 (end_y c - start_y c) 5 in
  get_tile_position_f64 0 0 c w h = (110, 210)%float /\
  get_tile_position_f64 31 7 c w h = (730, 350)%float /\
  tilePosition 0 0 c = (110, 210) /\ tilePosition 31 7 c = (730, 350).
Proof. vm_compute. repeat split. Qed.

(* ================================================================== *)
(** * Configuration *)
(* ================================================================== *)



(* ================================================================== *)
(** * Exceptions *)
(* ================================================================== *)

Lemma finish_painting_resets (a : App) :
  is_painting (finish_painting a) = false /\
  ui_calls (finish_painting a)
  = (ui_calls a ++ [StartBtn true; PauseBtn false; PauseBtnText false;
                    AbortBtn false])%list.
Proof. split; reflexivity. Qed.


(** An input-layer failure in the middle of a run, and a negative delay,
    both end in a logged error and a finished run. *)
Example input_failure_is_logged :
  let w := {| self := set_flags true false false (fresh_app checker_grid);
              ctl := [];
              faults := [None; None; Some (InputError "mouse")];
              jitters := [] |} in
  fst (painting_loop (sample_coords 10) w) = Normal tt /\
  last (status_text (self (snd (painting_loop (sample_coords 10) w)))) LogStarting
  = LogError (InputError "mouse") /\
  is_painting (self (snd (painting_loop (sample_coords 10) w))) = false.
Proof. vm_compute. repeat split. Qed.

Example negative_delay_is_logged :
  match get_coords (sample_form "50" "-1" "10") with
  | Some c =>
      let r := painting_loop c (quiet_world checker_grid) in
      fst r = Normal tt /\
      last (status_text (self (snd r))) LogStarting = LogError ValueError /\
      actions (self (snd r)) = [] /\
      is_painting (self (snd r)) = false
  | None => False
  end.
Proof. vm_compute. repeat split. Qed.

(* ================================================================== *)
(** * Completed runs *)
(* ================================================================== *)

Lemma added_actions_unique (w w' : World) (l l' : list PaintAction) :
  added_actions w w' l -> added_actions w w' l' -> l = l'.
Proof.
  unfold added_actions. intros H H'. rewrite H in H'.
  exact (app_inv_head _ _ _ H').
Qed.

(** On a valid grid a completed run performed the schedule of the
    sorted pixels, which are the 1024 cells of the grid. *)
Lemma completed_schedule (coords : Coords) (w w' : World) :
  valid_grid (pixel_colors (self w)) = true ->
  completes coords w w' ->
  exists collected acts,
    collect_pixels (pixel_colors (self w)) coords
                   (fst (tile_size coords)) (snd (tile_size coords))
    = inr collected /\
    map pixel_cell collected = map cell_of cells /\
    Forall good_pixel collected /\
    Forall (fun p => exists row c, In row (pixel_colors (self w)) /\ In c row
                                   /\ hex_color p = Py.lower c) collected /\
    schedule (tolerance coords) None (sort_by_luminance collected) = Some acts /\
    added_actions w w' acts.
Proof.
  intros Hg Hc.
  destruct (completes_actions coords w w' Hc) as (collected & acts & E & Hs & Ha).
  destruct (collect_pixels_valid (pixel_colors (self w)) coords
              (fst (tile_size coords)) (snd (tile_size coords)) Hg)
    as (ps & E' & Hcells & Hgood & Hsrc).
  rewrite E in E'. injection E' as <-.
  exists collected, acts. auto 10.
Qed.

Lemma sorted_nonempty (collected : list Pixel) :
  map pixel_cell collected = map cell_of cells ->
  exists p rest, sort_by_luminance collected = p :: rest /\
                 List.length rest = 1023%nat.
Proof.
  intros H.
  assert (Hlen : List.length (sort_by_luminance collected) = 1024%nat).
  { unfold sort_by_luminance. rewrite stable_sort_length.
    rewrite <- (length_map pixel_cell), H, length_map. exact cells_length. }
  destruct (sort_by_luminance collected) as [|p rest]; [discriminate Hlen|].
  exists p, rest. split; [reflexivity|]. cbn in Hlen. lia.
Qed.


(** C6, as the code has it.  Under an integer tolerance of 442 or more
    (441.67 itself is not a tolerance the configuration accepts) a
    completed run selected a colour exactly once, as its first action. *)
Theorem one_selection_from_tolerance_442 (coords : Coords) (w w' : World) :
  valid_grid (pixel_colors (self w)) = true ->
  442 <= tolerance coords ->
  completes coords w w' ->
  exists c l,
    added_actions w w' (SelectColor c :: l) /\
    count_select (SelectColor c :: l) = 1.
Proof.
  intros Hg Htol Hc.
  destruct (completed_schedule coords w w' Hg Hc)
    as (collected & acts & _ & Hcells & Hgood & _ & Hs & Ha).
  destruct (sorted_nonempty collected Hcells) as (p & rest & Esort & _).
  assert (Hall : Forall good_pixel (p :: rest)).
  { rewrite <- Esort.
    apply (Permutation_Forall (Permutation_sym (sort_by_luminance_perm collected))).
    exact Hgood. }
  rewrite Esort in Hs.
  destruct (schedule_first _ _ _ _ Hs) as (l & -> & Hl & Hcount).
  inversion Hall as [|? ? [Hp6 _] Hrest]; subst.
  eexists. eexists. split; [exact Ha|].
  rewrite Hcount, (schedule_no_change (tolerance coords) (hex_color p) rest l); [lia| |exact Hl].
  rewrite Forall_forall in Hrest |- *. intros q Hq.
  apply needs_color_change_max; [exact Hp6|apply (Hrest q Hq)|exact Htol].
Qed.

(* ================================================================== *)
(** * Order of painting *)
(* ================================================================== *)


(* ================================================================== *)
(** * The selection decision *)
(* ================================================================== *)

Lemma last_selected_app (l l' : list PaintAction) :
  forall acc,
    last_selected acc (l ++ l') = last_selected (last_selected acc l) l'.
Proof.
  induction l as [|[c|x y sx sy] l IH]; intros acc; cbn; auto.
Qed.

Lemma needs_is_far (tol : Z) (previous : option Color) (c : Color) (needs : bool) :
  (forall prev, previous = Some prev -> is_hex6 prev = true) ->
  is_hex6 c = true ->
  needs_color_change tol previous c = Some needs ->
  needs = far_from_previous tol previous c.
Proof.
  intros Hprev Hc. destruct previous as [prev|]; cbn; [|congruence].
  destruct (distance_hex6 prev c (Hprev prev eq_refl) Hc) as (t1 & t2 & _ & _ & E & Hr).
  rewrite E, (float_gt_int_not_le _ _ (math_sqrt_not_nan _ Hr)).
  destruct (Py.float_le_int _ tol); cbn; congruence.
Qed.






(* ================================================================== *)
(** * Abort *)
(* ================================================================== *)

(** C4 at the failing input.  An abort that the worker sees inside the
    polling loop of a pause ends the run (nothing is painted, the run is
    marked finished) without any "aborted" line in the log, whereas an
    abort seen at the head of an iteration logs it. *)
Theorem abort_while_paused_is_not_reported :
  let r := painting_loop (sample_coords 10) paused_abort_world in
  let r' := painting_loop (sample_coords 10) (abort_after 0) in
  (fst r = Returned /\
   is_painting (self (snd r)) = false /\
   should_abort (self (snd r)) = true /\
   actions (self (snd r)) = [] /\
   existsb is_log_aborted (status_text (self (snd r))) = false) /\
  (fst r' = Returned /\
   is_painting (self (snd r')) = false /\
   actions (self (snd r')) = [] /\
   existsb is_log_aborted (status_text (self (snd r'))) = true).
Proof. vm_compute. repeat split. Qed.

(** An abort requested after ten completed cells: the run stops with ten
    tiles placed, the eleventh cell not started, and reports it. *)
Example abort_after_ten_cells :
  let r := painting_loop (sample_coords 10) (abort_after 10) in
  fst r = Returned /\
  List.length (filter is_place (actions (self (snd r)))) = 10%nat /\
  last (status_text (self (snd r))) LogStarting = LogAborted /\
  last (ui_calls (self (snd r))) (Progress 0 0) = AbortBtn false /\
  is_painting (self (snd r)) = false.
Proof. vm_compute. repeat split. Qed.

(* ================================================================== *)
(** * Witnesses on a quiet run *)
(* ================================================================== *)

Lemma sample_run_completes (tol : Z) :
  painting_body (sample_coords tol) (quiet_world checker_grid)
  = (Normal tt, sample_run tol) ->
  completes (sample_coords tol) (quiet_world checker_grid) (sample_run tol).
Proof. intros H. exact H. Qed.


Lemma one_selection_from_tolerance_442_witness :
  exists c l,
    added_actions (quiet_world checker_grid) (sample_run 442) (SelectColor c :: l) /\
    count_select (SelectColor c :: l) = 1.
Proof.
  apply (one_selection_from_tolerance_442 (sample_coords 442)
           (quiet_world checker_grid) (sample_run 442)).
  - vm_compute. reflexivity.
  - vm_compute. discriminate.
  - unfold completes. vm_compute. reflexivity.
Defined.

(** C6 as stated presupposes a tolerance of 441.67: the configuration
    reader rejects it, no run starts; and under 441, the largest accepted
    tolerance below it, black and white still take two selections. *)
Lemma tolerance_441_67_is_rejected :
  get_coords (sample_form "50" "0.05" "441.67") = None /\
  snd (start_painting (sample_form "50" "0.05" "441.67")
                      (fresh_app checker_grid)) = None /\
  get_coords (sample_form "50" "0.05" "441") = Some (sample_coords 441) /\
  count_select (actions (self (sample_run 441))) = 2.
Proof. vm_compute. repeat split. Qed.


(* ================================================================== *)
(** * The controller entry points *)
(* ================================================================== *)

Lemma toggle_pause_flags (a : App) :
  is_painting (toggle_pause a) = is_painting a /\
  is_paused (toggle_pause a) = negb (is_paused a) /\
  should_abort (toggle_pause a) = should_abort a /\
  pixel_colors (toggle_pause a) = pixel_colors a /\
  inputs (toggle_pause a) = inputs a.
Proof. unfold toggle_pause. cbn. destruct (is_paused a); cbn; auto. Qed.

Lemma deliver1_flags (a : App) (c : Cmd) :
  is_painting (deliver1 a c) = is_painting a /\
  pixel_colors (deliver1 a c) = pixel_colors a /\
  inputs (deliver1 a c) = inputs a /\
  (should_abort a = true -> should_abort (deliver1 a c) = true) /\
  (c = PressAbort -> should_abort (deliver1 a c) = true) /\
  (c <> PressAbort -> should_abort (deliver1 a c) = should_abort a).
Proof.
  destruct (toggle_pause_flags a) as (T1 & T2 & T3 & T4 & T5).
  destruct c; cbn [deliver1]; unfold on_ctrl_press.
  - rewrite T1, T3, T4, T5. repeat split; auto; discriminate.
  - cbn. repeat split; auto. congruence.
  - destruct (is_painting a) eqn:E.
    + rewrite T1, T3, T4, T5. repeat split; auto; discriminate.
    + repeat split; auto; discriminate.
Qed.

Lemma deliver_cons (c : Cmd) (cs : list Cmd) (a : App) :
  deliver (c :: cs) a = deliver cs (deliver1 a c).
Proof. reflexivity. Qed.

Lemma deliver_flags (cs : list Cmd) :
  forall a,
    is_painting (deliver cs a) = is_painting a /\
    pixel_colors (deliver cs a) = pixel_colors a /\
    inputs (deliver cs a) = inputs a /\
    (should_abort a = true -> should_abort (deliver cs a) = true) /\
    (In PressAbort cs -> should_abort (deliver cs a) = true) /\
    (~ In PressAbort cs -> should_abort (deliver cs a) = should_abort a).
Proof.
  induction cs as [|c cs IH]; intros a.
  - cbn. repeat split; auto; contradiction.
  - rewrite deliver_cons.
    destruct (IH (deliver1 a c)) as (I1 & I2 & I3 & I4 & I5 & I6).
    destruct (deliver1_flags a c) as (D1 & D2 & D3 & D4 & D5 & D6).
    rewrite I1, I2, I3, D1, D2, D3. repeat split; auto.
    + intros [->|Hin]; auto.
    + intros Hn. rewrite I6 by (intros Hin; apply Hn; right; exact Hin).
      apply D6. intros ->. apply Hn. left. reflexivity.
Qed.

(** X1.  An abort is never withdrawn by the controller: whatever is
    pressed afterwards, [should_abort] stays set; a sequence of presses
    containing the abort button sets it; and no sequence of presses
    changes [is_painting], the image or the inputs made so far. *)
Theorem abort_is_never_withdrawn (cs : list Cmd) (a : App) :
  (should_abort a = true -> should_abort (deliver cs a) = true) /\
  (In PressAbort cs -> should_abort (deliver cs a) = true) /\
  (~ In PressAbort cs -> should_abort (deliver cs a) = should_abort a) /\
  is_painting (deliver cs a) = is_painting a /\
  pixel_colors (deliver cs a) = pixel_colors a /\
  inputs (deliver cs a) = inputs a /\
  actions (deliver cs a) = actions a.
Proof.
  destruct (deliver_flags cs a) as (I1 & I2 & I3 & I4 & I5 & I6).
  repeat split; auto. apply deliver_actions.
Qed.

Lemma deliver1_paused (a : App) (c : Cmd) :
  is_painting a = true -> c <> PressAbort ->
  is_paused (deliver1 a c) = negb (is_paused a).
Proof.
  intros Hp Hc. destruct (toggle_pause_flags a) as (_ & T2 & _).
  destruct c; cbn [deliver1]; unfold on_ctrl_press.
  - exact T2.
  - congruence.
  - rewrite Hp. exact T2.
Qed.

(** X2.  During a run, without an abort, the pause button and the hot
    key are the same switch: after [n] presses of either, the worker is
    paused exactly when the parity of [n] flips the state it started
    from.  Outside a run the hot key does nothing at all. *)
Theorem pause_state_follows_parity (cs : list Cmd) (a : App) :
  is_painting a = true -> ~ In PressAbort cs ->
  is_paused (deliver cs a) = xorb (is_paused a) (Nat.odd (List.length cs)).
Proof.
  revert a. induction cs as [|c cs IH]; intros a Hp Hn.
  - cbn. destruct (is_paused a); reflexivity.
  - rewrite deliver_cons.
    assert (Hc : c <> PressAbort) by (intros ->; apply Hn; left; reflexivity).
    rewrite IH.
    + rewrite deliver1_paused by assumption.
      cbn [List.length]. rewrite Nat.odd_succ, <- Nat.negb_odd.
      destruct (is_paused a), (Nat.odd (List.length cs)); reflexivity.
    + destruct (deliver1_flags a c) as (D1 & _). rewrite D1. exact Hp.
    + intros Hin. apply Hn. right. exact Hin.
Qed.

Lemma pause_state_follows_parity_witness :
  is_paused (deliver [PressPause; PressF1; PressPause]
                     (set_flags true false false (fresh_app checker_grid)))
  = xorb false (Nat.odd 3).
Proof.
  apply (pause_state_follows_parity [PressPause; PressF1; PressPause]
           (set_flags true false false (fresh_app checker_grid))).
  - reflexivity.
  - cbn. intros [H|[H|[H|H]]]; try discriminate; exact H.
Defined.

(** X3.  The hot key is dead outside a run: with [is_painting] false, any
    number of presses of F1 leaves the whole application state as it
    is, while the pause button still toggles. *)
Theorem hot_key_ignored_when_idle (n : nat) (a : App) :
  is_painting a = false ->
  deliver (repeat PressF1 n) a = a /\
  is_paused (deliver [PressPause] a) = negb (is_paused a).
Proof.
  intros Hp. split.
  - induction n as [|n IH]; [reflexivity|].
    cbn [repeat]. rewrite deliver_cons. cbn [deliver1]. unfold on_ctrl_press.
    rewrite Hp. exact IH.
  - cbn. unfold toggle_pause. cbn. destruct (is_paused a); reflexivity.
Qed.

Lemma hot_key_ignored_when_idle_witness :
  deliver (repeat PressF1 5) (fresh_app checker_grid) = fresh_app checker_grid /\
  is_paused (deliver [PressPause] (fresh_app checker_grid))
  = negb (is_paused (fresh_app checker_grid)).
Proof.
  apply (hot_key_ignored_when_idle 5 (fresh_app checker_grid)). reflexivity.
Defined.

(** X4.  [human_like_move] never hands the input layer a speed outside
    1..100, whatever the configured speed is; on the documented range
    1..100 it is [101 - speed], and a larger configured speed never gives
    a larger AutoIt speed. *)
Theorem autoit_speed_is_clamped (speed : Z) :
  1 <= autoit_speed speed <= 100 /\
  (1 <= speed <= 100 -> autoit_speed speed = 101 - speed) /\
  (speed <= 1 -> autoit_speed speed = 100) /\
  (100 <= speed -> autoit_speed speed = 1) /\
  (forall speed', speed <= speed' -> autoit_speed speed' <= autoit_speed speed).
Proof. unfold autoit_speed. repeat split; intros; lia. Qed.
